(** * Fantasy-football prediction pipeline: a shallow embedding

    The development follows [prediction/fantasy_calculator.py] and
    [prediction/predictor.py].

    Numbers.  Python floats are modelled as exact rationals ([Q]) extended
    with a [nan] value; a polars null is [None].  Floating-point arithmetic
    is therefore exact: rounding error of IEEE doubles is outside the
    model, while the null / NaN / finite distinction the source branches on
    is kept.  Integer columns keep their width, and integer arithmetic
    wraps around as it does in polars. *)

From Stdlib Require Import QArith Qround ZArith Lia Lqa.
From Stdlib Require Import Sorting.Permutation Sorting.Sorted.
From stdpp Require Import gmap strings list fin_maps sorting.

Local Open Scope string_scope.

(** ** Floats, nulls and their arithmetic *)

Inductive float : Type :=
  | nan : float
  | fin : Q -> float.

(** A value read from a polars column: [None] is null. *)
Abbreviation cell := (option float).

Definition fadd (a b : float) : float :=
  match a, b with
  | fin x, fin y => fin (x + y)
  | _, _ => nan
  end.

Definition fmul (a b : float) : float :=
  match a, b with
  | fin x, fin y => fin (x * y)
  | _, _ => nan
  end.

(** polars arithmetic on nullable values: null wins over everything. *)
Definition cell_add (a b : cell) : cell :=
  match a, b with
  | Some x, Some y => Some (fadd x y)
  | _, _ => None
  end.

(** A nullable floating-point value times a floating-point literal. *)
Definition cell_scale (w : Q) (a : cell) : cell :=
  match a with
  | Some x => Some (fmul x (fin w))
  | None => None
  end.

(** ** Column types of polars

    A column is a floating-point column, a signed integer column of 8, 16,
    32 or 64 bits, or a string column.  Integer arithmetic is done in the
    integer type and wraps around; floating-point arithmetic is exact in
    the model.  Unsigned, boolean, temporal and nested columns are not
    represented. *)

Inductive int_width : Type := W8 | W16 | W32 | W64.

Definition width_bits (w : int_width) : Z :=
  match w with W8 => 8 | W16 => 16 | W32 => 32 | W64 => 64 end.

(** The common type of two signed integer types is the wider one. *)
Definition width_max (a b : int_width) : int_width :=
  if (width_bits a <=? width_bits b)%Z then b else a.

(** Two's-complement wrap-around into the range of the type. *)
Definition wrap (w : int_width) (z : Z) : Z :=
  let m := (2 ^ width_bits w)%Z in
  ((z + m / 2) mod m - m / 2)%Z.


Definition fitsb (w : int_width) (z : Z) : bool :=
  ((- 2 ^ (width_bits w - 1) <=? z) && (z <? 2 ^ (width_bits w - 1)))%Z.

(** The type polars gives an integer literal before it looks for the common
    type with the other operand: the smallest signed type that holds it.
    Python integers are taken to fit 64 bits. *)
Definition smallest_width (k : Z) : int_width :=
  if fitsb W8 k then W8
  else if fitsb W16 k then W16
  else if fitsb W32 k then W32
  else W64.

(** A Python number: the source passes both [int] and [float] weights. *)
Inductive number : Type :=
  | PyInt (k : Z)
  | PyFloat (q : Q).

Definition number_value (w : number) : Q :=
  match w with
  | PyInt k => inject_Z k
  | PyFloat q => q
  end.

Inductive column : Type :=
  | FloatCol (xs : list cell)
  | IntCol (w : int_width) (xs : list (option Z))
  | StrCol (xs : list (option string)).

Definition column_length (c : column) : nat :=
  match c with
  | FloatCol xs => length xs
  | IntCol _ xs => length xs
  | StrCol xs => length xs
  end.

(** An integer value cast to a float. *)
Definition int_cell (x : option Z) : cell :=
  option_map (fun z => fin (inject_Z z)) x.

Definition int_mul (w : int_width) (k : Z) (x : option Z) : option Z :=
  option_map (fun z => wrap w (z * k)) x.

Definition int_add (w : int_width) (x y : option Z) : option Z :=
  match x, y with
  | Some a, Some b => Some (wrap w (a + b))
  | _, _ => None
  end.

Definition str_add (x y : option string) : option string :=
  match x, y with
  | Some a, Some b => Some (a ++ b)
  | _, _ => None
  end.

(** [pl.col(c) * w] for a Python number [w].  A float column, or a float
    weight, gives a float column; an integer column times an integer weight
    is computed in the common integer type and wraps; a string column
    raises. *)
Definition scale_column (w : number) (c : column) : option column :=
  match c with
  | FloatCol xs => Some (FloatCol (map (cell_scale (number_value w)) xs))
  | IntCol wd xs =>
      match w with
      | PyFloat q => Some (FloatCol (map (fun x => cell_scale q (int_cell x)) xs))
      | PyInt k =>
          let wd' := width_max wd (smallest_width k) in
          Some (IntCol wd' (map (int_mul wd' k) xs))
      end
  | StrCol _ => None
  end.

(** [a + b] on two columns: floats win over integers, two integer columns
    are added in their common type, two string columns are concatenated,
    and a string column with a numeric one raises. *)
Definition add_columns (a b : column) : option column :=
  match a, b with
  | FloatCol xs, FloatCol ys => Some (FloatCol (zip_with cell_add xs ys))
  | FloatCol xs, IntCol _ ys =>
      Some (FloatCol (zip_with cell_add xs (map int_cell ys)))
  | IntCol _ xs, FloatCol ys =>
      Some (FloatCol (zip_with cell_add (map int_cell xs) ys))
  | IntCol w1 xs, IntCol w2 ys =>
      Some (IntCol (width_max w1 w2) (zip_with (int_add (width_max w1 w2)) xs ys))
  | StrCol xs, StrCol ys => Some (StrCol (zip_with str_add xs ys))
  | _, _ => None
  end.

(** ** Scoring engine ([fantasy_calculator.py]) *)

(** A data frame: every column has [height] entries, and a frame without
    columns has no rows. *)
Record Frame : Type := mkFrame {
  height : nat;
  columns : gmap string column
}.

Definition frame_wf (df : Frame) : Prop :=
  map_Forall (fun _ c => column_length c = height df) (columns df)
  /\ (columns df = ∅ -> height df = 0%nat).

(** [df.with_columns(expr.alias(name))] for an expression over the columns
    of [df]: adds or replaces a column. *)
Definition with_column (name : string) (c : column) (df : Frame) : Frame :=
  {| height := height df; columns := <[name := c]> (columns df) |}.

(** [pl.lit(v)] broadcast to the height of the frame. *)
Definition lit (df : Frame) (v : Q) : column :=
  FloatCol (replicate (height df) (Some (fin v))).

(** [df.with_columns(pl.lit(v).alias(name))]: the literal is broadcast to
    the height of the frame; on a frame without columns it makes a frame of
    one row. *)
Definition with_lit (name : string) (v : Q) (df : Frame) : Frame :=
  if decide (size (columns df) = 0%nat)
  then {| height := 1; columns := {[ name := FloatCol [Some (fin v)] ]} |}
  else with_column name (lit df v) df.

(** [pl.col(name)]: fails when the column does not exist. *)
Definition col (df : Frame) (name : string) : option column :=
  columns df !! name.

(** [d.get(key, dflt)] *)
Definition dict_get (d : gmap string number) (key : string) (dflt : number)
  : number :=
  default dflt (d !! key).

Definition standard_scoring : gmap string number :=
  list_to_map
    [ ("passing_yards", PyFloat 0.04); ("passing_tds", PyInt 4);
      ("interceptions", PyInt (-2)); ("rushing_yards", PyFloat 0.1);
      ("rushing_tds", PyInt 6); ("receptions", PyFloat 0.5);
      ("receiving_yards", PyFloat 0.1); ("receiving_tds", PyInt 6);
      ("fumbles_lost", PyInt (-2)); ("two_point_conversions", PyInt 2) ].

(** [FantasyPointCalculator.__init__]: the scoring map the instance keeps. *)
Definition FantasyPointCalculator (scoring_config : option (gmap string number))
  : gmap string number :=
  match scoring_config with
  | None => standard_scoring
  | Some d => d
  end.

(** [FantasyPredictor.__init__] builds its calculator from
    [config.get("scoring", {})]. *)
Definition predictor_calculator (config_scoring : option (gmap string number))
  : gmap string number :=
  FantasyPointCalculator (Some (default ∅ config_scoring)).

(** One [if cat in df.columns: ... else: ...] block of
    [calculate_fantasy_points]. *)
Definition score_category (scoring : gmap string number)
    (cat : string) (dflt : number) (out : string) (df : Frame)
  : option Frame :=
  match columns df !! cat with
  | Some c =>
      c' ← scale_column (dict_get scoring cat dflt) c;
      Some (with_column out c' df)
  | None => Some (with_lit out 0 df)
  end.

(** The last statement of [calculate_fantasy_points]: the sum of the ten
    point columns, written to [fantasy_points]. *)
Definition sum_points (df : Frame) : option Frame :=
  c1 ← col df "passing_fp";
  c2 ← col df "passing_td_fp";
  c3 ← col df "int_fp";
  c4 ← col df "rushing_fp";
  c5 ← col df "rushing_td_fp";
  c6 ← col df "rec_fp";
  c7 ← col df "receiving_fp";
  c8 ← col df "receiving_td_fp";
  c9 ← col df "fumble_fp";
  c10 ← col df "two_pt_fp";
  s ← add_columns c1 c2;
  s ← add_columns s c3;
  s ← add_columns s c4;
  s ← add_columns s c5;
  s ← add_columns s c6;
  s ← add_columns s c7;
  s ← add_columns s c8;
  s ← add_columns s c9;
  s ← add_columns s c10;
  Some (with_column "fantasy_points" s df).

Definition calculate_fantasy_points (scoring : gmap string number) (df : Frame)
  : option Frame :=
  let df := match columns df !! "fantasy_points" with
            | None => with_lit "fantasy_points" 0 df
            | Some _ => df
            end in
  df ← score_category scoring "passing_yards" (PyFloat 0.04) "passing_fp" df;
  df ← score_category scoring "passing_tds" (PyInt 4) "passing_td_fp" df;
  df ← score_category scoring "interceptions" (PyInt (-2)) "int_fp" df;
  df ← score_category scoring "rushing_yards" (PyFloat 0.1) "rushing_fp" df;
  df ← score_category scoring "rushing_tds" (PyInt 6) "rushing_td_fp" df;
  df ← score_category scoring "receptions" (PyFloat 0.5) "rec_fp" df;
  df ← score_category scoring "receiving_yards" (PyFloat 0.1) "receiving_fp" df;
  df ← score_category scoring "receiving_tds" (PyInt 6) "receiving_td_fp" df;
  df ← score_category scoring "fumbles_lost" (PyInt (-2)) "fumble_fp" df;
  df ← score_category scoring "two_point_conversions" (PyInt 2) "two_pt_fp" df;
  sum_points df.

(** The ten scored categories with the default weight the source passes to
    [scoring.get] and the column each block writes, in the order of the
    source. *)
Definition scoring_steps : list (string * number * string) :=
  [ ("passing_yards", PyFloat 0.04, "passing_fp");
    ("passing_tds", PyInt 4, "passing_td_fp");
    ("interceptions", PyInt (-2), "int_fp");
    ("rushing_yards", PyFloat 0.1, "rushing_fp");
    ("rushing_tds", PyInt 6, "rushing_td_fp");
    ("receptions", PyFloat 0.5, "rec_fp");
    ("receiving_yards", PyFloat 0.1, "receiving_fp");
    ("receiving_tds", PyInt 6, "receiving_td_fp");
    ("fumbles_lost", PyInt (-2), "fumble_fp");
    ("two_point_conversions", PyInt 2, "two_pt_fp") ].

Definition categories : list (string * number) := map fst scoring_steps.

(** ** Python and polars helpers used by the predictor *)

(** Python's built-in [sum], a left fold from 0. *)
Definition sumQ (l : list Q) : Q := foldl Qplus 0%Q l.
Definition sumZ (l : list Z) : Z := foldl Z.add 0%Z l.

(** Round half to even on an exact value. *)
Definition round_half_even (q : Q) : Z :=
  let f := Qfloor q in
  match (q - inject_Z f ?= 1 # 2)%Q with
  | Lt => f
  | Gt => (f + 1)%Z
  | Eq => if Z.even f then f else (f + 1)%Z
  end.

(** [round(q, ndigits)] *)
Definition py_round (q : Q) (ndigits : nat) : Q :=
  let scale := inject_Z (10 ^ Z.of_nat ndigits) in
  (inject_Z (round_half_even (q * scale)) / scale)%Q.

Definition py_round_float (a : float) (ndigits : nat) : float :=
  match a with
  | nan => nan
  | fin q => fin (py_round q ndigits)
  end.

(** The guard [f is not None and not (isinstance(f, float) and f != f)]. *)
Definition valid_value (c : cell) : option Q :=
  match c with
  | Some (fin q) => Some q
  | _ => None
  end.

(** Non-null entries of a column, the values polars aggregates over. *)
Definition non_null (xs : list cell) : list float := omap id xs.

Definition fsum (xs : list float) : float := foldl fadd (fin 0) xs.

Definition fdiv_nat (a : float) (n : nat) : float :=
  match a with
  | nan => nan
  | fin q => fin (q / inject_Z (Z.of_nat n))
  end.

(** [pl.sum]: nulls are skipped. *)
Definition pl_sum (xs : list cell) : cell := Some (fsum (non_null xs)).

(** [pl.mean]: nulls are skipped; null when nothing is left. *)
Definition pl_mean (xs : list cell) : cell :=
  match non_null xs with
  | [] => None
  | v :: vs => Some (fdiv_nat (fsum (v :: vs)) (length (v :: vs)))
  end.

Definition all_finite (xs : list float) : option (list Q) :=
  mapM (fun a => match a with fin q => Some q | nan => None end) xs.

(** Sample variance (ddof = 1) of two or more exact values. *)
Definition sample_variance (qs : list Q) : Q :=
  let n := inject_Z (Z.of_nat (length qs)) in
  let m := (sumQ qs / n)%Q in
  (sumQ (map (fun q => (q - m) * (q - m))%Q qs) / (n - 1))%Q.

Inductive error : Type :=
  | ValueError (msg : string)
  | TypeError (msg : string).

(** The result of a call that may raise. *)
Inductive outcome (A : Type) : Type :=
  | Returned (a : A)
  | Raised (e : error).
Arguments Returned {A} a.
Arguments Raised {A} e.

(** ** Rows of the three tables the predictor works on *)

Module Game.
(** A scored per-game record. *)
Record row : Type := mk {
  player_id : string;
  player_name : string;
  season : Z;
  position : option string;
  fantasy_points : cell
}.
End Game.

Module Seasonal.
(** One row of the frame returned by [get_player_seasonal_stats].  The
    source also aggregates [min_fp] and [max_fp]; no later stage reads
    them and they are left out. *)
Record row : Type := mk {
  player_id : string;
  player_name : string;
  season : Z;
  position : option string;
  total_fp : cell;
  avg_fp_per_game : cell;
  games_played : nat;
  fp_std : cell;
  consistency_score : cell
}.
End Seasonal.

Module Prediction.
(** The dictionary returned by [predict_player_2026]. *)
Record row : Type := mk {
  player_id : string;
  player_name : string;
  position : string;
  predicted_avg_fp_per_game : Q;
  predicted_season_fp : Q;
  recent_avg_fp : float;
  trend : Q;
  consistency_score : Q;
  seasons_analyzed : nat;
  last_season : Z
}.
End Prediction.

(** The parts of [cfg.json] the prediction code reads; an optional key is
    [None] when absent, and the source supplies the default with [.get]. *)
Record Config : Type := mkConfig {
  target_season : Z;
  trend_weight : option Q;
  consistency_weight : option Q;
  min_seasons_played : option Z;
  position_filters : option (list (string * bool));
  output_directory : string;
  output_format : option string
}.

(** ** polars [group_by]

    polars leaves the order of the groups unspecified; the model lists them
    by first appearance and keeps the rows of a group in frame order. *)

Section group_by.
Context {A K : Type} `{EqDecision K}.

Fixpoint add_to_group (k : K) (x : A) (gs : list (K * list A))
  : list (K * list A) :=
  match gs with
  | [] => [(k, [x])]
  | (k', xs) :: gs' =>
      if decide (k = k') then (k', (xs ++ [x])%list) :: gs'
      else (k', xs) :: add_to_group k x gs'
  end.

Definition group_by (key : A -> K) (l : list A) : list (K * list A) :=
  foldl (fun gs x => add_to_group (key x) x gs) [] l.

(** The rows filed under key [k], none when [k] has no group. *)
Fixpoint group_of (k : K) (gs : list (K * list A)) : list A :=
  match gs with
  | [] => []
  | (k', xs) :: gs' => if decide (k = k') then xs else group_of k gs'
  end.
End group_by.

(** ** Seasonal aggregator, trend estimator, season predictor, orchestrator

    Two polars primitives are parameters of the model:
    - [sqrt_fn], the square root inside [pl.std];
    - [pl_sort], [DataFrame.sort]: it returns the rows ordered by the
      given comparison.  The source calls it without [maintain_order]; that
      rows which compare equal come out in the order they went in is a
      separate assumption, [sort_stable], made only where it is used. *)

Definition sort_permutes
    (srt : forall A : Type, (A -> A -> bool) -> list A -> list A) : Prop :=
  forall (A : Type) (le : A -> A -> bool) (l : list A),
    Permutation l (srt A le l).



Section Pipeline.
Variable sqrt_fn : Q -> Q.
Variable pl_sort : forall A : Type, (A -> A -> bool) -> list A -> list A.

(** [pl.std] (sample standard deviation): nulls are skipped, the result
    is null with fewer than two values and NaN when a value is NaN. *)
Definition pl_std (xs : list cell) : cell :=
  let vs := non_null xs in
  if (length vs <=? 1)%nat then None
  else match all_finite vs with
       | None => Some nan
       | Some qs => Some (fin (sqrt_fn (sample_variance qs)))
       end.

(** The [when(is_null | is_nan).then(0.5).otherwise(1.0 / (std + 1.0))]
    expression. *)
Definition consistency_of (std : cell) : cell :=
  match std with
  | None => Some (fin 0.5)
  | Some nan => Some (fin 0.5)
  | Some (fin s) => Some (fin (1 / (s + 1)))
  end.

Definition aggregate_group
    (key : string * string * Z * option string) (rows : list Game.row)
  : Seasonal.row :=
  let '(pid, name, yr, pos) := key in
  let fps := map Game.fantasy_points rows in
  let std := pl_std fps in
  {| Seasonal.player_id := pid;
     Seasonal.player_name := name;
     Seasonal.season := yr;
     Seasonal.position := pos;
     Seasonal.total_fp := pl_sum fps;
     Seasonal.avg_fp_per_game := pl_mean fps;
     Seasonal.games_played := length rows;
     Seasonal.fp_std := std;
     Seasonal.consistency_score := consistency_of std |}.

Definition get_player_seasonal_stats (df : list Game.row)
  : list Seasonal.row :=
  map (fun g => aggregate_group (fst g) (snd g))
      (group_by (fun r => (Game.player_id r, Game.player_name r,
                           Game.season r, Game.position r)) df).

(** The rows of one player, [seasonal_df.filter(player_id == pid)]. *)
Definition player_rows (seasonal_df : list Seasonal.row) (pid : string)
  : list Seasonal.row :=
  filter (fun r => Seasonal.player_id r = pid) seasonal_df.

(** The list comprehension that keeps the (season, avg_fp) pairs whose
    average is neither None nor NaN. *)
Definition valid_pairs (rows : list Seasonal.row) : list (Z * Q) :=
  omap (fun r => match valid_value (Seasonal.avg_fp_per_game r) with
                 | Some f => Some (Seasonal.season r, f)
                 | None => None
                 end) rows.

(** The closed-form slope computed at the end of [calculate_trend]. *)
Definition regression_slope (valid_data : list (Z * Q)) : Q :=
  let seasons := map fst valid_data in
  let avg_fp := map snd valid_data in
  let n := Z.of_nat (length seasons) in
  let sum_x := sumZ seasons in
  let sum_y := sumQ avg_fp in
  let sum_xy := sumQ (map (fun p => inject_Z (fst p) * snd p)%Q valid_data) in
  let sum_x2 := sumZ (map (fun s => s * s)%Z seasons) in
  if (n * sum_x2 - sum_x * sum_x =? 0)%Z then 0%Q
  else ((inject_Z n * sum_xy - inject_Z sum_x * sum_y)
        / inject_Z (n * sum_x2 - sum_x * sum_x))%Q.

Definition calculate_trend (seasonal_df : list Seasonal.row) (pid : string)
  : Q :=
  let player_data := player_rows seasonal_df pid in
  if (length player_data <? 2)%nat then 0%Q
  else
    let player_data :=
      pl_sort _ (fun a b => (Seasonal.season a <=? Seasonal.season b)%Z)
              player_data in
    let valid_data := valid_pairs player_data in
    if (length valid_data <? 2)%nat then 0%Q
    else regression_slope valid_data.

(** [recent_data]: the lookback filter of [predict_player_2026]. *)
Definition recent_data (cfg : Config) (seasonal_df : list Seasonal.row)
    (pid : string) : list Seasonal.row :=
  filter (fun r => (target_season cfg - 3 <= Seasonal.season r)%Z)
         (player_rows seasonal_df pid).

(** [[1.0 + (i * 0.3) for i in range(n)]] followed by [reverse()]. *)
Definition recency_weights (n : nat) : list Q :=
  reverse (map (fun i : nat => 1 + inject_Z (Z.of_nat i) * 0.3)%Q (seq 0 n)).

(** [sum(f * w for f, w in zip(avg_fp, weights)) / sum(weights)] *)
Definition weighted_avg (recent_avg_fp : list Q) : Q :=
  let weights := recency_weights (length recent_avg_fp) in
  (sumQ (zip_with Qmult recent_avg_fp weights) / sumQ weights)%Q.

Definition seasons_max (rows : list Seasonal.row) : Z :=
  match map Seasonal.season rows with
  | [] => 0%Z
  | s :: ss => foldl Z.max s ss
  end.

Definition predict_player_2026 (cfg : Config)
    (seasonal_df : list Seasonal.row) (pid : string)
  : outcome (option Prediction.row) :=
  let player_data := player_rows seasonal_df pid in
  match player_data with
  | [] => Returned None
  | player_row :: _ =>
    let player_name := Seasonal.player_name player_row in
    let position := default "UNK" (Seasonal.position player_row) in
    let recent := recent_data cfg seasonal_df pid in
    match recent with
    | [] => Returned None
    | _ :: _ =>
      let valid_data := valid_pairs recent in
      match valid_data with
      | [] => Returned None
      | _ :: _ =>
        let recent_avg_fp := map snd valid_data in
        let w_avg := weighted_avg recent_avg_fp in
        let trend := calculate_trend seasonal_df pid in
        let trend_adjustment := (trend * default 0.3 (trend_weight cfg))%Q in
        let consistency_scores :=
          omap (fun r => valid_value (Seasonal.consistency_score r)) recent in
        let consistency :=
          match consistency_scores with
          | [] => 0.5%Q
          | _ :: _ => (sumQ consistency_scores
                       / inject_Z (Z.of_nat (length consistency_scores)))%Q
          end in
        let consistency_bonus :=
          ((consistency - 0.5) * default 0.2 (consistency_weight cfg))%Q in
        let predicted_fp := (w_avg + trend_adjustment + consistency_bonus)%Q in
        let predicted_fp :=
          if Qle_bool predicted_fp 0 then 0%Q else predicted_fp in
        let predicted_season_fp := (predicted_fp * 17)%Q in
        match pl_mean (map Seasonal.avg_fp_per_game recent) with
        | None => Raised (TypeError "round(None, 2)")
        | Some mean_fp =>
          Returned (Some
            {| Prediction.player_id := pid;
               Prediction.player_name := player_name;
               Prediction.position := position;
               Prediction.predicted_avg_fp_per_game := py_round predicted_fp 2;
               Prediction.predicted_season_fp := py_round predicted_season_fp 2;
               Prediction.recent_avg_fp := py_round_float mean_fp 2;
               Prediction.trend := py_round trend 3;
               Prediction.consistency_score := py_round consistency 3;
               Prediction.seasons_analyzed := length recent;
               Prediction.last_season := seasons_max recent |})
        end
      end
    end
  end.
End Pipeline.

Section Orchestrator.
Variable sqrt_fn : Q -> Q.
Variable pl_sort : forall A : Type, (A -> A -> bool) -> list A -> list A.

(** [seasonal_df.group_by("player_id").agg(pl.count())] *)
Definition player_season_counts (seasonal_df : list Seasonal.row)
  : list (string * nat) :=
  map (fun g => (fst g, length (snd g)))
      (group_by Seasonal.player_id seasonal_df).

(** [eligible_players] before the position filter. *)
Definition eligible_by_seasons (cfg : Config) (seasonal_df : list Seasonal.row)
  : list string :=
  let min_seasons := default 2%Z (min_seasons_played cfg) in
  map fst (List.filter (fun pc => (min_seasons <=? Z.of_nat (snd pc))%Z)
                       (player_season_counts seasonal_df)).

Definition position_allowed (allowed : list string) (pos : option string)
  : bool :=
  match pos with
  | Some p => bool_decide (p ∈ allowed)
  | None => false
  end.

Definition eligible_players (cfg : Config) (seasonal_df : list Seasonal.row)
  : list string :=
  let eligible := eligible_by_seasons cfg seasonal_df in
  let filters := default [] (position_filters cfg) in
  if existsb snd filters then
    let allowed := map fst (List.filter snd filters) in
    remove_dups
      (map Seasonal.player_id
         (List.filter
            (fun r => bool_decide (Seasonal.player_id r ∈ eligible)
                      && position_allowed allowed (Seasonal.position r))
            seasonal_df))
  else eligible.

(** The [for player_id in eligible_players: try: ... except Exception]
    loop, for any per-player predictor [predict]. *)
Fixpoint collect_predictions
    (predict : list Seasonal.row -> string -> outcome (option Prediction.row))
    (seasonal_df : list Seasonal.row) (players : list string)
  : list Prediction.row :=
  match players with
  | [] => []
  | pid :: rest =>
      match predict seasonal_df pid with
      | Returned (Some prediction) =>
          prediction :: collect_predictions predict seasonal_df rest
      | Returned None => collect_predictions predict seasonal_df rest
      | Raised _ => collect_predictions predict seasonal_df rest
      end
  end.

(** [predictions_df.sort("predicted_season_fp", descending=True)] *)
Definition sort_predictions (predictions : list Prediction.row)
  : list Prediction.row :=
  pl_sort _ (fun a b => Qle_bool (Prediction.predicted_season_fp b)
                                 (Prediction.predicted_season_fp a))
          predictions.

(** [predict_all_players] from the seasonal frame on, with the predictor
    called in the loop as a parameter. *)
Definition predict_all_players_with
    (predict : list Seasonal.row -> string -> outcome (option Prediction.row))
    (cfg : Config) (seasonal_df : list Seasonal.row)
  : outcome (list Prediction.row) :=
  let predictions :=
    collect_predictions predict seasonal_df
                        (eligible_players cfg seasonal_df) in
  match predictions with
  | [] => Raised (ValueError "No predictions generated. Check data and filters.")
  | _ :: _ => Returned (sort_predictions predictions)
  end.

(** [predict_all_players] on the scored game-level frame. *)
Definition predict_all_players (cfg : Config) (df : list Game.row)
  : outcome (list Prediction.row) :=
  predict_all_players_with (predict_player_2026 pl_sort cfg) cfg
                           (get_player_seasonal_stats sqrt_fn df).
End Orchestrator.

(** ** Saving predictions

    Paths follow [pathlib]: a path is a root flag and a list of components,
    empty and ["."] components being dropped; [".."] components and
    symbolic links are not resolved.  The file system is the set of
    directories and the map of files; the operating-system errors modelled
    are those that depend on what exists (permissions, quotas and the like
    are outside the model). *)

Fixpoint split_on (sep : Ascii.ascii) (s : string) : list string :=
  match s with
  | EmptyString => [EmptyString]
  | String c s' =>
      if Ascii.eqb c sep then EmptyString :: split_on sep s'
      else match split_on sep s' with
           | [] => [String c EmptyString]
           | w :: ws => String c w :: ws
           end
  end.

(** A path: whether it starts at the root, and its components. *)
Definition path : Type := bool * list string.

(** The separator ["/"]. *)
Definition slash : Ascii.ascii := Ascii.ascii_of_nat 47.

Definition is_component (w : string) : bool :=
  negb (String.eqb w "") && negb (String.eqb w ".").

(** [Path(s)] *)
Definition Path (s : string) : path :=
  (match s with
   | String c _ => Ascii.eqb c slash
   | EmptyString => false
   end,
   List.filter is_component (split_on slash s)).

(** [base / s]: an absolute right operand replaces the left one. *)
Definition joinpath (base : path) (s : string) : path :=
  let p := Path s in
  if fst p then p else (fst base, (snd base ++ snd p)%list).

Definition parent (p : path) : path := (fst p, removelast (snd p)).

(** The path itself and the paths above it, outermost first; the root and
    the working directory are left out. *)
Definition ancestors (p : path) : list path :=
  map (fun n => (fst p, take n (snd p))) (seq 1 (length (snd p))).

Inductive file_content : Type :=
  | Parquet (rows : list Prediction.row)
  | Csv (rows : list Prediction.row)
  | Json (rows : list Prediction.row).

Record file_system : Type := mkFs {
  directories : gset path;
  files : gmap path file_content
}.

Inductive os_error : Type :=
  | FileNotFoundError
  | FileExistsError
  | NotADirectoryError
  | IsADirectoryError.

Inductive io_result (A : Type) : Type :=
  | Done (a : A)
  | Failed (e : os_error).
Arguments Done {A} a.
Arguments Failed {A} e.

Definition is_file (fs : file_system) (p : path) : bool :=
  match files fs !! p with
  | Some _ => true
  | None => false
  end.

(** The root and the working directory always exist. *)
Definition is_dir (fs : file_system) (p : path) : bool :=
  match snd p with
  | [] => true
  | _ => bool_decide (p ∈ directories fs)
  end.

(** [p.mkdir(parents=True, exist_ok=True)]: creates the missing directories
    from the outermost on; a file in the way makes it raise. *)
Definition mkdir_parents (p : path) (fs : file_system)
  : io_result file_system :=
  if existsb (is_file fs) (ancestors p)
  then Failed (if is_file fs p then FileExistsError else NotADirectoryError)
  else Done {| directories := directories fs ∪ list_to_set (ancestors p);
               files := files fs |}.

(** Opening [p] for writing and storing [c]: the directory above must
    exist, and [p] must not be a directory. *)
Definition write_file (p : path) (c : file_content) (fs : file_system)
  : io_result file_system :=
  if is_dir fs p then Failed IsADirectoryError
  else if is_dir fs (parent p)
       then Done {| directories := directories fs;
                    files := <[p := c]> (files fs) |}
       else if existsb (is_file fs) (ancestors (parent p))
            then Failed NotADirectoryError
            else Failed FileNotFoundError.

Definition save_predictions (cfg : Config)
    (predictions_df : list Prediction.row) (fs : file_system)
  : file_system * io_result path :=
  let output_dir := Path (output_directory cfg) in
  match mkdir_parents output_dir fs with
  | Failed e => (fs, Failed e)
  | Done fs =>
      let output_format := default "parquet" (output_format cfg) in
      let output_path :=
        joinpath output_dir ("predictions_2026." ++ output_format) in
      let written :=
        if String.eqb output_format "parquet" then
          write_file output_path (Parquet predictions_df) fs
        else if String.eqb output_format "csv" then
          write_file output_path (Csv predictions_df) fs
        else
          write_file output_path (Json predictions_df) fs in
      match written with
      | Failed e => (fs, Failed e)
      | Done fs' => (fs', Done output_path)
      end
  end.

(** The file system before anything is written. *)
Definition empty_fs : file_system := {| directories := ∅; files := ∅ |}.

(** A configuration whose output format contains a separator. *)
Definition cfg_nested : Config :=
  {| target_season := 2026;
     trend_weight := None;
     consistency_weight := None;
     min_seasons_played := None;
     position_filters := None;
     output_directory := "out";
     output_format := Some "a/b" |}.

(** ** Executable instances of the two polars parameters *)

(** Insertion sort: a new row goes behind the rows that compare equal to
    it. *)
Fixpoint sort_insert {A : Type} (le : A -> A -> bool) (x : A) (l : list A)
  : list A :=
  match l with
  | [] => [x]
  | y :: l' =>
      if le x y && negb (le y x)
      then x :: y :: l'
      else y :: sort_insert le x l'
  end.

(** A stable sort: rows that compare equal keep their order. *)
Definition stable_sort (A : Type) (le : A -> A -> bool) (l : list A) : list A :=
  foldl (fun acc x => sort_insert le x acc) [] l.

(** A rational square root, exact on squares of rationals. *)
Definition sqrt_floor (q : Q) : Q :=
  (inject_Z (Z.sqrt (Qnum q * Z.pos (Qden q))) / inject_Z (Z.pos (Qden q)))%Q.

(** ** The scoring engine read off the input frame

    [calculate_fantasy_points] threads the frame through ten updates; the
    definitions below say what each step contributes in terms of the frame
    the first step produces, and what happens in a single row. *)

(** The frame after the initial [if "fantasy_points" not in df.columns]. *)
Definition with_initial_points (df : Frame) : Frame :=
  match columns df !! "fantasy_points" with
  | None => with_lit "fantasy_points" 0 df
  | Some _ => df
  end.

(** The column a category contributes. *)
Definition category_column (scoring : gmap string number) (df : Frame)
    (cw : string * number) : option column :=
  match columns df !! fst cw with
  | Some c => scale_column (dict_get scoring (fst cw) (snd cw)) c
  | None => Some (lit df 0)
  end.

(** The ten blocks as a fold over [scoring_steps]. *)
Definition score_all (scoring : gmap string number)
    (steps : list (string * number * string)) (df : Frame) : option Frame :=
  foldl (fun acc step =>
           df ← acc;
           score_category scoring (fst (fst step)) (snd (fst step)) (snd step) df)
        (Some df) steps.

(** The blocks in continuation-passing form, the shape the source has. *)
Fixpoint score_then {B : Type} (scoring : gmap string number)
    (steps : list (string * number * string)) (k : Frame -> option B)
    (df : Frame) : option B :=
  match steps with
  | [] => k df
  | step :: rest =>
      df' ← score_category scoring (fst (fst step)) (snd (fst step)) (snd step) df;
      score_then scoring rest k df'
  end.

(** The columns the blocks write, computed on one frame. *)
Definition step_outputs (scoring : gmap string number) (df : Frame)
    (steps : list (string * number * string)) : option (list (string * column)) :=
  mapM (fun step => c ← category_column scoring df (fst step);
                    Some (snd step, c)) steps.

Definition insert_all (outs : list (string * column)) (m : gmap string column)
  : gmap string column :=
  foldl (fun m oc => <[fst oc := snd oc]> m) m outs.

(** The sum [c1 + c2 + ... + cn], from left to right. *)
Definition sum_columns (cs : list column) : option column :=
  match cs with
  | [] => None
  | c :: cs => foldl (fun acc c => a ← acc; add_columns a c) (Some c) cs
  end.

(** The columns of the scored frame in terms of the frame [df0] the first
    step produces. *)
Definition scored_columns (scoring : gmap string number) (df0 : Frame)
  : option (gmap string column) :=
  outs ← step_outputs scoring df0 scoring_steps;
  total ← sum_columns (map snd outs);
  Some (<["fantasy_points" := total]> (insert_all outs (columns df0))).

(** One entry of a column, with the type of the column. *)
Inductive value : Type :=
  | FloatVal (x : cell)
  | IntVal (w : int_width) (x : option Z)
  | StrVal (x : option string).

Definition column_row (c : column) (i : nat) : option value :=
  match c with
  | FloatCol xs => FloatVal <$> xs !! i
  | IntCol w xs => IntVal w <$> xs !! i
  | StrCol xs => StrVal <$> xs !! i
  end.

Definition scale_value (w : number) (v : value) : option value :=
  match v with
  | FloatVal x => Some (FloatVal (cell_scale (number_value w) x))
  | IntVal wd x =>
      match w with
      | PyFloat q => Some (FloatVal (cell_scale q (int_cell x)))
      | PyInt k =>
          let wd' := width_max wd (smallest_width k) in
          Some (IntVal wd' (int_mul wd' k x))
      end
  | StrVal _ => None
  end.

Definition add_values (a b : value) : option value :=
  match a, b with
  | FloatVal x, FloatVal y => Some (FloatVal (cell_add x y))
  | FloatVal x, IntVal _ y => Some (FloatVal (cell_add x (int_cell y)))
  | IntVal _ x, FloatVal y => Some (FloatVal (cell_add (int_cell x) y))
  | IntVal w1 x, IntVal w2 y =>
      Some (IntVal (width_max w1 w2) (int_add (width_max w1 w2) x y))
  | StrVal x, StrVal y => Some (StrVal (str_add x y))
  | _, _ => None
  end.

Definition sum_values (vs : list value) : option value :=
  match vs with
  | [] => None
  | v :: vs => foldl (fun acc v => a ← acc; add_values a v) (Some v) vs
  end.

(** A numeric entry read as a float; a string entry has no such reading. *)
Definition value_cell (v : value) : option cell :=
  match v with
  | FloatVal x => Some x
  | IntVal _ x => Some (int_cell x)
  | StrVal _ => None
  end.

Definition numeric_cell (c : column) (i : nat) : option cell :=
  v ← column_row c i; value_cell v.

(** What category [cw] contributes to row [i]. *)
Definition category_value (scoring : gmap string number) (df : Frame)
    (i : nat) (cw : string * number) : option value :=
  match columns df !! fst cw with
  | Some c =>
      v ← column_row c i; scale_value (dict_get scoring (fst cw) (snd cw)) v
  | None => Some (FloatVal (Some (fin 0)))
  end.

(** Null, NaN or finite: the first wins over the second, the second over
    the third, in every sum. *)
Definition cell_status (x : cell) : nat :=
  match x with
  | None => 2
  | Some nan => 1
  | Some (fin _) => 0
  end.

Definition value_status (v : value) : nat :=
  match value_cell v with
  | Some x => cell_status x
  | None => 0
  end.

Definition is_numeric (v : value) : Prop :=
  match v with
  | StrVal _ => False
  | _ => True
  end.


(** ** Statements of the specification, for comparison with the code *)

(** Section 4.4 step 3 as the specification words it: the valid entries in
    season-ascending order, entry [i] weighted [1.0 + 0.3 i], so that the
    most recent season weighs most. *)
Definition spec_weighted_avg (entries : list (Z * Q)) : Q :=
  let ordered := stable_sort _ (fun a b => (fst a <=? fst b)%Z) entries in
  let weights :=
    map (fun i : nat => 1 + inject_Z (Z.of_nat i) * 0.3)%Q
        (seq 0 (length ordered)) in
  (sumQ (zip_with Qmult (map snd ordered) weights) / sumQ weights)%Q.

(** Section 4.4 step 1 as the specification words it: the three seasons
    before the target season, the target season excluded. *)
Definition spec_lookback (cfg : Config) (seasonal_df : list Seasonal.row)
    (pid : string) : list Seasonal.row :=
  filter (fun r => Seasonal.player_id r = pid
                   /\ (target_season cfg - 3 <= Seasonal.season r)%Z
                   /\ (Seasonal.season r < target_season cfg)%Z)
         seasonal_df.



(** No present category is a string column. *)
Definition numeric_categories (df : Frame) : Prop :=
  forall cat dflt xs, (cat, dflt) ∈ categories ->
    columns df !! cat <> Some (StrCol xs).






(** The [fantasy_points] value of row [i] after scoring, if any. *)
Definition scored_points (scoring : gmap string number) (df : Frame) (i : nat)
  : option cell :=
  df' ← calculate_fantasy_points scoring df;
  c ← columns df' !! "fantasy_points";
  numeric_cell c i.

(** Null, NaN or finite: what the statistic of category [cw] is in row [i];
    an absent category counts as finite. *)
Definition category_status (df : Frame) (i : nat) (cw : string * number)
  : nat :=
  match columns df !! fst cw with
  | Some c => from_option cell_status 0%nat (numeric_cell c i)
  | None => 0%nat
  end.

Definition is_numeric_column (c : column) : Prop :=
  match c with
  | StrCol _ => False
  | _ => True
  end.

(** Section 4.5 as the specification words it: the number of distinct
    seasons for which the player has a seasonal summary. *)
Definition distinct_seasons (seasonal_df : list Seasonal.row) (pid : string)
  : nat :=
  length (remove_dups
            (map Seasonal.season
                 (filter (fun r => Seasonal.player_id r = pid) seasonal_df))).

Definition spec_eligible (cfg : Config) (seasonal_df : list Seasonal.row)
    (pid : string) : Prop :=
  pid ∈ map Seasonal.player_id seasonal_df
  /\ (default 2%Z (min_seasons_played cfg)
      <= Z.of_nat (distinct_seasons seasonal_df pid))%Z.

(** The serializations the specification calls supported. *)
Definition supported_format (fmt : string) : Prop :=
  fmt = "parquet" \/ fmt = "csv" \/ fmt = "json".

(** The closed-form least-squares slope of section 4.3, on exact sums. *)
Definition sigmaQ (l : list Q) : Q := fold_right Qplus 0%Q l.
Definition sigmaZ (l : list Z) : Z := fold_right Z.add 0%Z l.

Definition ols_denominator (pts : list (Z * Q)) : Z :=
  let n := Z.of_nat (length pts) in
  let sx := sigmaZ (map fst pts) in
  (n * sigmaZ (map (fun p => fst p * fst p) pts) - sx * sx)%Z.

Definition ols_slope (pts : list (Z * Q)) : Q :=
  let n := inject_Z (Z.of_nat (length pts)) in
  let sx := inject_Z (sigmaZ (map fst pts)) in
  let sy := sigmaQ (map snd pts) in
  let sxy := sigmaQ (map (fun p => inject_Z (fst p) * snd p)%Q pts) in
  ((n * sxy - sx * sy) / inject_Z (ols_denominator pts))%Q.

(** Section 4.3 as the specification words it: the player's
    (season, average) pairs, the summaries whose average is null or NaN
    being discarded. *)
Definition has_average (r : Seasonal.row) : bool :=
  match Seasonal.avg_fp_per_game r with
  | Some (fin _) => true
  | _ => false
  end.

Definition average_of (r : Seasonal.row) : Q :=
  match Seasonal.avg_fp_per_game r with
  | Some (fin v) => v
  | _ => 0%Q
  end.

Definition spec_points (seasonal_df : list Seasonal.row) (pid : string)
  : list (Z * Q) :=
  map (fun r => (Seasonal.season r, average_of r))
      (List.filter (fun r => String.eqb (Seasonal.player_id r) pid
                             && has_average r) seasonal_df).


(** ** Concrete inputs *)

Definition summary (pid : string) (yr : Z) (pos : string) (avg : Q)
  : Seasonal.row :=
  {| Seasonal.player_id := pid;
     Seasonal.player_name := pid;
     Seasonal.season := yr;
     Seasonal.position := Some pos;
     Seasonal.total_fp := Some (fin (avg * 16));
     Seasonal.avg_fp_per_game := Some (fin avg);
     Seasonal.games_played := 16;
     Seasonal.fp_std := Some (fin 1);
     Seasonal.consistency_score := Some (fin 0.5) |}.

Definition cfg_2026 : Config :=
  {| target_season := 2026;
     trend_weight := None;
     consistency_weight := None;
     min_seasons_played := None;
     position_filters := None;
     output_directory := "out";
     output_format := None |}.

(** One player, three seasons, rows in season-ascending order. *)
Definition ascending_df : list Seasonal.row :=
  [ summary "P1" 2023 "RB" 10; summary "P1" 2024 "RB" 12;
    summary "P1" 2025 "RB" 14 ].

(** A player whose only summary is older than the lookback window. *)
Definition old_df : list Seasonal.row := [ summary "P1" 2020 "RB" 10 ].

(** The same player with a summary for the target season as well. *)
Definition with_target_df : list Seasonal.row :=
  [ summary "P1" 2025 "RB" 14; summary "P1" 2026 "RB" 20 ].

(** A player with two summaries for one season (two listed positions). *)
Definition two_positions_df : list Seasonal.row :=
  [ summary "P1" 2025 "RB" 14; summary "P1" 2025 "WR" 9 ].

(** Two players whose predictions tie. *)
Definition tie_df : list Seasonal.row :=
  [ summary "P1" 2024 "RB" 10; summary "P1" 2025 "RB" 10;
    summary "P2" 2024 "WR" 10; summary "P2" 2025 "WR" 10 ].

Definition cfg_xml : Config :=
  {| target_season := 2026;
     trend_weight := None;
     consistency_weight := None;
     min_seasons_played := None;
     position_filters := None;
     output_directory := "out";
     output_format := Some "xml" |}.

(** A predictor that raises for player P2 and otherwise is the season
    predictor. *)
Definition flaky_predict (seasonal_df : list Seasonal.row) (pid : string)
  : outcome (option Prediction.row) :=
  if String.eqb pid "P2" then Raised (ValueError "no data")
  else predict_player_2026 stable_sort cfg_2026 seasonal_df pid.

(** Game rows of one player in one season. *)
Definition game (fp : Q) : Game.row :=
  {| Game.player_id := "P1";
     Game.player_name := "P1";
     Game.season := 2025;
     Game.position := Some "RB";
     Game.fantasy_points := Some (fin fp) |}.

Definition group_key : string * string * Z * option string :=
  ("P1", "P1", 2025%Z, Some "RB").

(** The points of the worked example of the trend estimator. *)
Definition trend_example_df : list Seasonal.row :=
  [ summary "P1" 2020 "RB" 10; summary "P1" 2021 "RB" 12;
    summary "P1" 2022 "RB" 14 ].

(** A summary whose average is the given cell. *)
Definition summary_with (pid : string) (yr : Z) (avg : cell) : Seasonal.row :=
  {| Seasonal.player_id := pid;
     Seasonal.player_name := pid;
     Seasonal.season := yr;
     Seasonal.position := Some "RB";
     Seasonal.total_fp := avg;
     Seasonal.avg_fp_per_game := avg;
     Seasonal.games_played := 16;
     Seasonal.fp_std := Some (fin 1);
     Seasonal.consistency_score := Some (fin 0.5) |}.

(** Two seasons, the later one with a null average. *)
Definition trend_null_df : list Seasonal.row :=
  [ summary "P1" 2020 "RB" 10; summary_with "P1" 2021 None ].

(** Three seasons, the middle one with a NaN average. *)
Definition trend_nan_df : list Seasonal.row :=
  [ summary "P1" 2020 "RB" 10; summary_with "P1" 2021 (Some nan);
    summary "P1" 2022 "RB" 14 ].

(** ** Top players ([get_top_players]) *)

(** polars [DataFrame.head(n)]: the first [n] rows; for a negative [n], all
    rows except the last [|n|]. *)
Definition pl_head {A : Type} (n : Z) (l : list A) : list A :=
  if (0 <=? n)%Z then take (Z.to_nat n) l
  else take (length l - Z.to_nat (- n)) l.

(** [get_top_players]; [top_n_players] is the optional key of the
    [output] section of the configuration. *)
Definition get_top_players (top_n_players : option Z)
    (predictions_df : list Prediction.row) (n : option Z)
  : list Prediction.row :=
  let n := match n with
           | None => default 50%Z top_n_players
           | Some n => n
           end in
  pl_head n predictions_df.

(** Descending order of [predicted_season_fp]. *)
Definition fp_descending (a b : Prediction.row) : Prop :=
  (Prediction.predicted_season_fp b <= Prediction.predicted_season_fp a)%Q.

Definition cfg_min (m : Z) : Config :=
  {| target_season := 2026;
     trend_weight := None;
     consistency_weight := None;
     min_seasons_played := Some m;
     position_filters := None;
     output_directory := "out";
     output_format := None |}.

Definition cfg_positions (filters : list (string * bool)) : Config :=
  {| target_season := 2026;
     trend_weight := None;
     consistency_weight := None;
     min_seasons_played := None;
     position_filters := Some filters;
     output_directory := "out";
     output_format := None |}.

(** A player whose early seasons were far better than the last one. *)
Definition declining_df : list Seasonal.row :=
  [ summary "P1" 2020 "RB" 40; summary "P1" 2025 "RB" 0.5 ].

(** Two players with different levels, and their ranked predictions. *)
Definition two_level_df : list Seasonal.row :=
  [ summary "P1" 2024 "RB" 10; summary "P1" 2025 "RB" 10;
    summary "P2" 2024 "WR" 20; summary "P2" 2025 "WR" 20 ].

Definition ranked_predictions : list Prediction.row :=
  match predict_all_players_with stable_sort
          (predict_player_2026 stable_sort cfg_2026) cfg_2026 two_level_df with
  | Returned l => l
  | Raised _ => []
  end.

(** ** Keys of the seasonal aggregation *)

(** The [group_by] key of [get_player_seasonal_stats]. *)
Definition game_key (g : Game.row) : string * string * Z * option string :=
  (Game.player_id g, Game.player_name g, Game.season g, Game.position g).

Definition seasonal_key (r : Seasonal.row)
  : string * string * Z * option string :=
  (Seasonal.player_id r, Seasonal.player_name r, Seasonal.season r,
   Seasonal.position r).

(** Game rows of two players, one of them with a game without points. *)
Definition game_of (pid : string) (yr : Z) (fp : cell) : Game.row :=
  {| Game.player_id := pid;
     Game.player_name := pid;
     Game.season := yr;
     Game.position := Some "RB";
     Game.fantasy_points := fp |}.

Definition games_df : list Game.row :=
  [ game_of "P1" 2024 (Some (fin 10)); game_of "P2" 2024 None;
    game_of "P1" 2024 (Some (fin 14)); game_of "P1" 2025 (Some (fin 8)) ].

(** ** Columns written by the scoring engine *)

Definition written_columns : list string :=
  [ "fantasy_points"; "passing_fp"; "passing_td_fp"; "int_fp"; "rushing_fp";
    "rushing_td_fp"; "rec_fp"; "receiving_fp"; "receiving_td_fp";
    "fumble_fp"; "two_pt_fp" ].

(** The height of the scored frame: the literal [fantasy_points] column
    gives a frame without columns one row. *)
Definition scored_height (df : Frame) : nat :=
  if decide (size (columns df) = 0%nat) then 1%nat else height df.

(** Some present category is NaN in row [i]. *)
Definition row_has_nan (df : Frame) (i : nat) : Prop :=
  exists cat dflt c, (cat, dflt) ∈ categories
    /\ columns df !! cat = Some c /\ numeric_cell c i = Some (Some nan).

(** No present category is null in row [i]. *)
Definition row_without_null (df : Frame) (i : nat) : Prop :=
  forall cat dflt c, (cat, dflt) ∈ categories ->
    columns df !! cat = Some c -> exists x, numeric_cell c i = Some (Some x).


(** Two game rows with passing yards (floats) and rushing touchdowns
    (64-bit integers) only. *)
Definition plain_frame : Frame :=
  {| height := 2;
     columns := list_to_map
       [ ("passing_yards", FloatCol [Some (fin 100); Some (fin 250)]);
         ("rushing_tds", IntCol W64 [Some 1%Z; Some 0%Z]) ] |}.

(** One game row with a NaN in [rushing_yards]. *)
Definition nan_frame : Frame :=
  {| height := 1;
     columns := list_to_map [ ("passing_yards", FloatCol [Some (fin 200)]);
                              ("rushing_yards", FloatCol [Some nan]) ] |}.

(** One row whose rushing touchdowns are stored in eight bits. *)
Definition int8_frame : Frame :=
  {| height := 1;
     columns := list_to_map [ ("rushing_tds", IntCol W8 [Some 22%Z]) ] |}.

(** The frame without columns, [pl.DataFrame()]. *)
Definition empty_frame : Frame := {| height := 0; columns := ∅ |}.

(** One row whose passing yards are text. *)
Definition text_frame : Frame :=
  {| height := 1;
     columns := list_to_map [ ("passing_yards", StrCol [Some "312"]) ] |}.

(** ** Position columns ([get_position_scoring_columns]) *)

Definition position_map : gmap string (list string) :=
  list_to_map
    [ ("QB", [ "passing_yards"; "passing_tds"; "interceptions";
               "rushing_yards"; "rushing_tds" ]);
      ("RB", [ "rushing_yards"; "rushing_tds"; "receptions";
               "receiving_yards"; "receiving_tds" ]);
      ("WR", [ "receptions"; "receiving_yards"; "receiving_tds";
               "rushing_yards"; "rushing_tds" ]);
      ("TE", [ "receptions"; "receiving_yards"; "receiving_tds" ]) ].

(** [position_map.get(position.upper(), [])]; Python's [str.upper] is the
    parameter [upper]. *)
Definition get_position_scoring_columns (upper : string -> string)
    (position : string) : list string :=
  default [] (position_map !! upper position).

(** Upper and lower case of ASCII letters, the instances of [str.upper]
    and [str.lower] used to run the model on ASCII strings. *)
Definition ascii_upper (c : Ascii.ascii) : Ascii.ascii :=
  let n := Ascii.nat_of_ascii c in
  if ((97 <=? n) && (n <=? 122))%nat then Ascii.ascii_of_nat (n - 32) else c.

Fixpoint string_map (f : Ascii.ascii -> Ascii.ascii) (s : string) : string :=
  match s with
  | EmptyString => EmptyString
  | String c s' => String (f c) (string_map f s')
  end.

Definition upper_ascii : string -> string := string_map ascii_upper.

(** ** Seasons to fetch ([get_season_list]) *)

(** [list.remove(x)]: removes the first occurrence. *)
Fixpoint remove_first (x : Z) (l : list Z) : list Z :=
  match l with
  | [] => []
  | y :: l' => if decide (x = y) then l' else y :: remove_first x l'
  end.

(** [get_season_list]; [current_year] is [datetime.now().year]. *)
Definition get_season_list (current_year : Z) (start_year end_year : Z)
    (include_current : bool) : list Z :=
  let seasons := seqZ start_year (end_year + 1 - start_year) in
  if negb include_current && bool_decide (current_year ∈ seasons)
  then remove_first current_year seasons
  else seasons.

(** ** Selection of the results ([predict_fantasy_players], steps 4 and 5) *)

(** The position filter and the top-N selection applied to the output of
    [predict_all_players]; returns the filtered predictions and the top
    players.  [position] and [top_n] are tested for truthiness: an empty
    position and a count of 0 count as not given. *)
Definition select_players (upper : string -> string)
    (top_n_players : option Z) (position : option string) (top_n : option Z)
    (predictions_df : list Prediction.row)
  : list Prediction.row * list Prediction.row :=
  let predictions_df :=
    match position with
    | Some pos =>
        if negb (String.eqb pos "") && negb (String.eqb (upper pos) "ALL")
        then filter (fun p => Prediction.position p = upper pos) predictions_df
        else predictions_df
    | None => predictions_df
    end in
  let top_players :=
    match top_n with
    | Some n =>
        if (n =? 0)%Z then predictions_df
        else get_top_players top_n_players predictions_df (Some n)
    | None => predictions_df
    end in
  (predictions_df, top_players).

(** ** Tactics for the concrete frames *)

Ltac each_category Hin tac :=
  unfold categories, scoring_steps in Hin; cbn [map fst] in Hin;
  repeat (apply elem_of_cons in Hin as [Hin | Hin];
          [ injection Hin as -> ->; tac | ]);
  inversion Hin.

Ltac concrete_wf :=
  split;
  [ cbn [columns height list_to_map foldr];
    repeat (apply map_Forall_insert_2; [reflexivity|]);
    apply map_Forall_empty
  | cbn [columns list_to_map foldr]; intros H; exfalso;
    exact (insert_non_empty _ _ _ H) ].

(** * Properties *)

(** ** Sums *)

Lemma foldl_Qplus_acc (l : list Q) (a : Q) :
  (foldl Qplus a l == a + sigmaQ l)%Q.
Proof.
  revert a. induction l as [|x l IH]; intros a; simpl.
  - ring.
  - rewrite IH. ring.
Qed.

Lemma sumQ_sigmaQ (l : list Q) : (sumQ l == sigmaQ l)%Q.
Proof. unfold sumQ. rewrite foldl_Qplus_acc. ring. Qed.

Lemma foldl_Zadd_acc (l : list Z) (a : Z) :
  foldl Z.add a l = (a + sigmaZ l)%Z.
Proof.
  revert a. induction l as [|x l IH]; intros a; simpl.
  - lia.
  - rewrite IH. lia.
Qed.

Lemma sumZ_sigmaZ (l : list Z) : sumZ l = sigmaZ l.
Proof. unfold sumZ. now rewrite foldl_Zadd_acc. Qed.

(** ** Scoring engine *)

Lemma score_all_none scoring steps :
  foldl (fun acc step =>
           df ← acc;
           score_category scoring (fst (fst step)) (snd (fst step)) (snd step) df)
        None steps = None.
Proof. induction steps as [|st steps IH]; [reflexivity | exact IH]. Qed.

Lemma score_then_spec {B : Type} scoring steps (k : Frame -> option B) df :
  score_then scoring steps k df = score_all scoring steps df ≫= k.
Proof.
  revert df. induction steps as [|st steps IH]; intros df; [reflexivity|].
  cbn [score_then]. unfold score_all. cbn [foldl]. cbn [mbind option_bind].
  destruct (score_category scoring st.1.1 st.1.2 st.2 df) as [df'|].
  - cbn [mbind option_bind]. rewrite IH. reflexivity.
  - cbn [mbind option_bind]. rewrite score_all_none. reflexivity.
Qed.

Lemma with_lit_nonempty name v df :
  size (columns df) <> 0%nat ->
  with_lit name v df = with_column name (lit df v) df.
Proof.
  intros H. unfold with_lit. destruct (decide (size (columns df) = 0%nat));
    [contradiction | reflexivity].
Qed.

Lemma size_lookup_nonempty (m : gmap string column) k c :
  m !! k = Some c -> size m <> 0%nat.
Proof.
  intros Hk Hs. apply map_size_empty_iff in Hs. subst m.
  rewrite lookup_empty in Hk. discriminate Hk.
Qed.

Lemma with_column_nonempty name c df :
  size (columns (with_column name c df)) <> 0%nat.
Proof.
  apply (size_lookup_nonempty _ name c). cbn [columns with_column].
  apply lookup_insert_eq.
Qed.

Lemma score_category_spec scoring cat dflt out df :
  size (columns df) <> 0%nat ->
  score_category scoring cat dflt out df
  = (c ← category_column scoring df (cat, dflt); Some (with_column out c df)).
Proof.
  intros Hne. unfold score_category, category_column. cbn [fst snd].
  destruct (columns df !! cat) as [c|]; [reflexivity|].
  rewrite with_lit_nonempty by exact Hne. reflexivity.
Qed.

Lemma category_column_ext scoring df df' cw :
  height df = height df' ->
  columns df !! fst cw = columns df' !! fst cw ->
  category_column scoring df cw = category_column scoring df' cw.
Proof.
  intros Hh Hc. unfold category_column, lit. rewrite Hc, Hh. reflexivity.
Qed.

Lemma step_outputs_ext scoring df df' steps :
  height df = height df' ->
  (forall st, st ∈ steps ->
     columns df !! fst (fst st) = columns df' !! fst (fst st)) ->
  step_outputs scoring df steps = step_outputs scoring df' steps.
Proof.
  intros Hh. unfold step_outputs.
  induction steps as [|st steps IH]; intros Hc; [reflexivity|].
  cbn [mapM].
  rewrite (category_column_ext scoring df df' (fst st)) by
    (try exact Hh; apply Hc; apply elem_of_cons; now left).
  rewrite IH; [reflexivity|].
  intros st' Hin. apply Hc. apply elem_of_cons. now right.
Qed.

(** The ten blocks write the columns [step_outputs] computes on the frame
    they start from: no block writes a column a later block reads. *)
Lemma score_all_spec scoring steps :
  (forall st st', st ∈ steps -> st' ∈ steps -> snd st <> fst (fst st')) ->
  forall df, size (columns df) <> 0%nat ->
  score_all scoring steps df
  = (outs ← step_outputs scoring df steps;
     Some {| height := height df;
             columns := insert_all outs (columns df) |}).
Proof.
  induction steps as [|st steps IH]; intros Hsep df Hne.
  - destruct df; reflexivity.
  - unfold score_all. cbn [foldl mbind option_bind].
    rewrite score_category_spec by exact Hne.
    unfold step_outputs. cbn [mapM].
    replace (st.1.1, st.1.2) with (st.1) by (destruct st as [[? ?] ?]; reflexivity).
    destruct (category_column scoring df st.1) as [c|] eqn:Hc.
    + cbn [mbind option_bind].
      fold (score_all scoring steps (with_column st.2 c df)).
      rewrite IH.
      * fold (step_outputs scoring (with_column st.2 c df) steps).
        fold (step_outputs scoring df steps).
        rewrite (step_outputs_ext scoring (with_column st.2 c df) df).
        -- destruct (step_outputs scoring df steps) as [outs|]; reflexivity.
        -- reflexivity.
        -- intros st' Hin. cbn [columns with_column].
           apply lookup_insert_ne. apply Hsep; apply elem_of_cons;
             [now left | now right].
      * intros a b Ha Hb. apply Hsep; apply elem_of_cons; now right.
      * apply with_column_nonempty.
    + cbn [mbind option_bind]. apply score_all_none.
Qed.

Lemma scoring_steps_separate :
  forall st st', st ∈ scoring_steps -> st' ∈ scoring_steps ->
                 snd st <> fst (fst st').
Proof.
  intros st st' H H'. unfold scoring_steps in *.
  repeat (apply elem_of_cons in H as [-> | H]);
    try (inversion H; fail);
    repeat (apply elem_of_cons in H' as [-> | H']);
    try (inversion H'; fail); discriminate.
Qed.

Lemma with_initial_points_nonempty df :
  size (columns (with_initial_points df)) <> 0%nat.
Proof.
  unfold with_initial_points.
  destruct (columns df !! "fantasy_points") as [c|] eqn:Hc.
  - exact (size_lookup_nonempty _ _ _ Hc).
  - unfold with_lit. destruct (decide (size (columns df) = 0%nat)).
    + cbn [columns]. rewrite map_size_singleton. discriminate.
    + apply with_column_nonempty.
Qed.

Lemma step_outputs_names scoring df steps outs :
  step_outputs scoring df steps = Some outs ->
  Forall2 (fun st oc => fst oc = snd st
                        /\ category_column scoring df (fst st) = Some (snd oc))
          steps outs.
Proof.
  unfold step_outputs. revert outs.
  induction steps as [|st steps IH]; intros outs H.
  - injection H as <-. constructor.
  - cbn [mapM] in H.
    destruct (category_column scoring df st.1) as [c|] eqn:Hc;
      [|discriminate H].
    cbn [mbind option_bind] in H.
    destruct (mapM _ steps) as [outs'|] eqn:Hm; [|discriminate H].
    injection H as <-. constructor; [split; [reflexivity | exact Hc]|].
    now apply IH.
Qed.

Lemma calculate_fantasy_points_score_then scoring df :
  calculate_fantasy_points scoring df
  = score_then scoring scoring_steps sum_points (with_initial_points df).
Proof. reflexivity. Qed.

Lemma sum_columns_none (cs : list column) :
  foldl (fun acc c => a ← acc; add_columns a c) None cs = None.
Proof. induction cs as [|c cs IH]; [reflexivity | exact IH]. Qed.

(** The last statement on a frame that holds the ten point columns. *)
Lemma sum_points_spec (outs : list (string * column)) (df : Frame) :
  map fst outs = map snd scoring_steps ->
  sum_points {| height := height df; columns := insert_all outs (columns df) |}
  = (total ← sum_columns (map snd outs);
     Some {| height := height df;
             columns := <["fantasy_points" := total]>
                          (insert_all outs (columns df)) |}).
Proof.
  intros Hnames. unfold scoring_steps in Hnames. cbn [map snd] in Hnames.
  do 10 (destruct outs as [|[? ?] outs]; [discriminate Hnames|];
         cbn [map fst] in Hnames;
         injection Hnames as -> Hnames).
  destruct outs; [clear Hnames | discriminate Hnames].
  unfold sum_points, col, insert_all.
  cbn [foldl fst snd columns height map].
  repeat (first [ rewrite lookup_insert_eq
                | rewrite lookup_insert_ne by discriminate ];
          cbn [mbind option_bind]).
  unfold sum_columns. cbn [foldl mbind option_bind].
  repeat match goal with
         | |- context [add_columns ?a ?b] =>
             destruct (add_columns a b); cbn [mbind option_bind];
             [| reflexivity]
         end.
  reflexivity.
Qed.

(** The result of scoring in closed form. *)
Lemma calculate_fantasy_points_columns scoring df :
  calculate_fantasy_points scoring df
  = (cols ← scored_columns scoring (with_initial_points df);
     Some {| height := height (with_initial_points df); columns := cols |}).
Proof.
  rewrite calculate_fantasy_points_score_then, score_then_spec.
  rewrite (score_all_spec scoring scoring_steps scoring_steps_separate)
    by apply with_initial_points_nonempty.
  unfold scored_columns.
  destruct (step_outputs scoring (with_initial_points df) scoring_steps)
    as [outs|] eqn:Houts; [|reflexivity].
  cbn [mbind option_bind].
  rewrite sum_points_spec.
  - destruct (sum_columns (map snd outs)); reflexivity.
  - apply step_outputs_names in Houts. clear -Houts.
    induction Houts as [|st oc steps outs [Hn _] _ IH]; [reflexivity|].
    cbn [map]. now rewrite Hn, IH.
Qed.

(** *** Rows of the columns *)

Lemma scale_column_row w c c' i :
  scale_column w c = Some c' ->
  column_row c' i = column_row c i ≫= scale_value w.
Proof.
  destruct c as [xs|wd xs|xs]; cbn [scale_column]; [| |discriminate].
  - intros [= <-]. cbn [column_row]. rewrite list_lookup_fmap.
    destruct (xs !! i); reflexivity.
  - destruct w as [k|q]; intros [= <-]; cbn [column_row];
      rewrite list_lookup_fmap; destruct (xs !! i); reflexivity.
Qed.

Lemma scale_column_numeric w c c' :
  scale_column w c = Some c' ->
  is_numeric_column c' /\ column_length c' = column_length c.
Proof.
  destruct c as [xs|wd xs|xs]; cbn [scale_column]; [| |discriminate].
  - intros [= <-]. split; [exact I|]. cbn. apply length_map.
  - destruct w as [k|q]; intros [= <-]; (split; [exact I|]); cbn;
      apply length_map.
Qed.

Lemma add_columns_row a b c i va vb :
  add_columns a b = Some c ->
  column_row a i = Some va -> column_row b i = Some vb ->
  exists vc, add_values va vb = Some vc /\ column_row c i = Some vc.
Proof.
  destruct a as [xs|w1 xs|xs], b as [ys|w2 ys|ys]; cbn [add_columns];
    try discriminate; intros [= <-]; cbn [column_row];
    rewrite ?lookup_zip_with, ?list_lookup_fmap;
    destruct (xs !! i) as [x|]; try discriminate;
    destruct (ys !! i) as [y|]; try discriminate;
    cbn; intros [= <-] [= <-]; eexists; split; reflexivity.
Qed.

Lemma add_columns_numeric a b :
  is_numeric_column a -> is_numeric_column b ->
  column_length a = column_length b ->
  exists c, add_columns a b = Some c /\ is_numeric_column c
            /\ column_length c = column_length a.
Proof.
  destruct a as [xs|w1 xs|xs], b as [ys|w2 ys|ys]; cbn;
    try contradiction; intros _ _ Hl; eexists;
    (split; [reflexivity|]); (split; [exact I|]); cbn;
    rewrite length_zip_with, ?length_map in *; lia.
Qed.

Lemma lit_row df v i :
  (i < height df)%nat ->
  column_row (lit df v) i = Some (FloatVal (Some (fin v))).
Proof.
  intros Hi. unfold lit. cbn [column_row].
  rewrite (lookup_replicate_2 _ _ i) by exact Hi. reflexivity.
Qed.

Lemma category_column_row scoring df cw c i :
  (i < height df)%nat ->
  category_column scoring df cw = Some c ->
  column_row c i = category_value scoring df i cw.
Proof.
  intros Hi. unfold category_column, category_value.
  destruct (columns df !! cw.1) as [c0|].
  - apply scale_column_row.
  - intros [= <-]. now apply lit_row.
Qed.

Lemma sum_columns_row_acc i (cs : list column) (vs : list value) :
  Forall2 (fun c v => column_row c i = Some v) cs vs ->
  forall a va total,
    foldl (fun acc c => a ← acc; add_columns a c) (Some a) cs = Some total ->
    column_row a i = Some va ->
    exists v, foldl (fun acc v => a ← acc; add_values a v) (Some va) vs = Some v
              /\ column_row total i = Some v.
Proof.
  induction 1 as [|c v cs vs Hcv _ IH]; intros a va total Hsum Ha.
  - injection Hsum as <-. exists va. split; [reflexivity | exact Ha].
  - cbn [foldl mbind option_bind] in Hsum |- *.
    destruct (add_columns a c) as [ac|] eqn:Hadd;
      [|rewrite sum_columns_none in Hsum; discriminate Hsum].
    destruct (add_columns_row a c ac i va v Hadd Ha Hcv) as (vc & -> & Hvc).
    exact (IH ac vc total Hsum Hvc).
Qed.

Lemma sum_columns_row i (cs : list column) (vs : list value) total :
  sum_columns cs = Some total ->
  Forall2 (fun c v => column_row c i = Some v) cs vs ->
  exists v, sum_values vs = Some v /\ column_row total i = Some v.
Proof.
  intros Hsum H. destruct H as [|c v cs vs Hcv H]; [discriminate Hsum|].
  exact (sum_columns_row_acc i cs vs H c v total Hsum Hcv).
Qed.

Lemma sum_columns_numeric (n : nat) (cs : list column) :
  cs <> [] ->
  Forall (fun c => is_numeric_column c /\ column_length c = n) cs ->
  exists total, sum_columns cs = Some total
                /\ is_numeric_column total /\ column_length total = n.
Proof.
  intros Hne H. destruct H as [|c cs [Hc Hl] H]; [contradiction|].
  clear Hne. unfold sum_columns. revert c Hc Hl.
  induction H as [|c' cs [Hc' Hl'] _ IH]; intros c Hc Hl.
  - exists c. split; [reflexivity|]. now split.
  - cbn [foldl mbind option_bind].
    destruct (add_columns_numeric c c' Hc Hc' ltac:(congruence))
      as (ac & -> & Hac & Hlac).
    apply IH; [exact Hac | congruence].
Qed.

(** *** Null, NaN and finite values in a sum *)

Lemma add_values_status a b :
  is_numeric a -> is_numeric b ->
  exists c, add_values a b = Some c /\ is_numeric c
            /\ value_status c = Nat.max (value_status a) (value_status b).
Proof.
  destruct a as [[[|x]|]|w1 [x|]|x], b as [[[|y]|]|w2 [y|]|y];
    cbn; try contradiction; intros _ _; eexists;
    (split; [reflexivity|]); (split; [exact I|]); reflexivity.
Qed.

Lemma sum_values_status (vs : list value) :
  Forall is_numeric vs ->
  forall a, is_numeric a ->
  exists v, foldl (fun acc v => a ← acc; add_values a v) (Some a) vs = Some v
            /\ is_numeric v
            /\ value_status v
               = Nat.max (value_status a) (max_list (map value_status vs)).
Proof.
  induction 1 as [|b vs Hb _ IH]; intros a Ha.
  - exists a. split; [reflexivity|]. split; [exact Ha|]. cbn. lia.
  - cbn [foldl mbind option_bind].
    destruct (add_values_status a b Ha Hb) as (c & -> & Hc & Hs).
    destruct (IH c Hc) as (v & Hv & Hnv & Hsv).
    exists v. split; [exact Hv|]. split; [exact Hnv|].
    rewrite Hsv, Hs.
    change (max_list (map value_status (b :: vs)))
      with (Nat.max (value_status b) (max_list (map value_status vs))).
    lia.
Qed.

Lemma value_status_null v :
  is_numeric v -> value_status v = 2%nat -> value_cell v = Some None.
Proof.
  destruct v as [[[|x]|]|w [x|]|x]; cbn; try contradiction;
    intros _ H; try discriminate H; reflexivity.
Qed.

Lemma value_status_nan v :
  is_numeric v -> value_status v = 1%nat -> value_cell v = Some (Some nan).
Proof.
  destruct v as [[[|x]|]|w [x|]|x]; cbn; try contradiction;
    intros _ H; try discriminate H; reflexivity.
Qed.

Lemma value_status_bound v : (value_status v <= 2)%nat.
Proof. destruct v as [[[|x]|]|w [x|]|x]; cbn; lia. Qed.

Lemma max_list_bound (k : nat) (l : list nat) :
  Forall (fun n => (n <= k)%nat) l -> (max_list l <= k)%nat.
Proof. induction 1; cbn; lia. Qed.

(** *** Finite values in a sum *)



(** *** What a category contributes to a row *)

Lemma category_value_numeric scoring df i cw :
  frame_wf df -> (i < height df)%nat ->
  (forall xs, columns df !! fst cw <> Some (StrCol xs)) ->
  exists v, category_value scoring df i cw = Some v /\ is_numeric v
            /\ value_status v = category_status df i cw.
Proof.
  intros [Hlen _] Hi Hnum. unfold category_value, category_status, numeric_cell.
  destruct (columns df !! cw.1) as [c|] eqn:Hc.
  - specialize (Hlen _ _ Hc). cbn beta in Hlen.
    destruct c as [xs|wd xs|xs]; cbn [column_length] in Hlen;
      cbn [column_row].
    + destruct (lookup_lt_is_Some_2 xs i ltac:(lia)) as [x ->].
      destruct x as [[|x]|]; cbn; eexists; repeat split.
    + destruct (lookup_lt_is_Some_2 xs i ltac:(lia)) as [x ->].
      destruct (dict_get scoring cw.1 cw.2) as [k|q], x as [x|]; cbn;
        eexists; repeat split.
    + exfalso. exact (Hnum xs eq_refl).
  - eexists. repeat split.
Qed.


Lemma category_column_numeric scoring df cw :
  frame_wf df ->
  (forall xs, columns df !! fst cw <> Some (StrCol xs)) ->
  exists c, category_column scoring df cw = Some c
            /\ is_numeric_column c /\ column_length c = height df.
Proof.
  intros [Hlen _] Hnum. unfold category_column.
  destruct (columns df !! cw.1) as [c|] eqn:Hc.
  - specialize (Hlen _ _ Hc). cbn beta in Hlen.
    destruct (scale_column (dict_get scoring cw.1 cw.2) c) as [c'|] eqn:Hs.
    + destruct (scale_column_numeric _ _ _ Hs) as [Hn Hl].
      exists c'. split; [reflexivity|]. split; [exact Hn | congruence].
    + destruct c as [xs|wd xs|xs]; cbn in Hs.
      * discriminate Hs.
      * destruct (dict_get scoring cw.1 cw.2); discriminate Hs.
      * exfalso. exact (Hnum xs eq_refl).
  - eexists. split; [reflexivity|]. split; [exact I|].
    cbn. apply length_replicate.
Qed.

Lemma categories_fresh cw :
  cw ∈ categories -> fst cw <> "fantasy_points".
Proof.
  unfold categories, scoring_steps. cbn [map fst]. intros H.
  repeat (apply elem_of_cons in H as [-> | H]; [discriminate|]).
  inversion H.
Qed.

Lemma frame_wf_nonempty df :
  frame_wf df -> (0 < height df)%nat -> size (columns df) <> 0%nat.
Proof.
  intros [_ He] Hh Hs. apply map_size_empty_iff in Hs.
  specialize (He Hs). lia.
Qed.

Lemma with_initial_points_lookup df name :
  size (columns df) <> 0%nat ->
  name <> "fantasy_points" ->
  columns (with_initial_points df) !! name = columns df !! name.
Proof.
  intros Hs Hne. unfold with_initial_points.
  destruct (columns df !! "fantasy_points"); [reflexivity|].
  rewrite with_lit_nonempty by exact Hs. cbn [columns with_column].
  apply lookup_insert_ne. congruence.
Qed.

Lemma with_initial_points_height df :
  size (columns df) <> 0%nat ->
  height (with_initial_points df) = height df.
Proof.
  intros Hs. unfold with_initial_points.
  destruct (columns df !! "fantasy_points"); [reflexivity|].
  rewrite with_lit_nonempty by exact Hs. reflexivity.
Qed.

Lemma step_outputs_total scoring df steps :
  Forall (fun st => is_Some (category_column scoring df (fst st))) steps ->
  is_Some (step_outputs scoring df steps).
Proof.
  unfold step_outputs. induction 1 as [|st steps [c Hc] _ [outs IH]].
  - eexists. reflexivity.
  - cbn [mapM]. rewrite Hc. cbn [mbind option_bind]. rewrite IH.
    eexists. reflexivity.
Qed.

Lemma Forall2_join {A B C : Type} (P : A -> B -> Prop) (Q : A -> C -> Prop)
    (l : list A) (k : list B) (m : list C) :
  Forall2 P l k -> Forall2 Q l m ->
  Forall2 (fun y z => exists x, P x y /\ Q x z) k m.
Proof.
  intros H. revert m. induction H as [|x y l k Hxy _ IH]; intros m Hm.
  - inversion Hm. constructor.
  - inversion Hm as [|? z ? m' Hxz Hm']; subst. constructor; [eauto|].
    now apply IH.
Qed.

(** Row [i] of the scored frame: the values the ten categories contribute,
    added from left to right. *)
Lemma scored_points_row scoring df i :
  frame_wf df -> (i < height df)%nat -> numeric_categories df ->
  exists vs v,
    Forall2 (fun cw v => category_value scoring df i cw = Some v
                         /\ is_numeric v
                         /\ value_status v = category_status df i cw)
            categories vs
    /\ sum_values vs = Some v /\ is_numeric v
    /\ scored_points scoring df i = value_cell v.
Proof.
  intros Hwf Hi Hnum.
  pose proof (frame_wf_nonempty df Hwf ltac:(lia)) as Hs.
  pose proof (with_initial_points_height df Hs) as Hh.
  set (df0 := with_initial_points df) in *.
  assert (Hext : forall cw, cw ∈ categories ->
            category_column scoring df0 cw = category_column scoring df cw).
  { intros cw Hin. apply category_column_ext; [exact Hh|].
    apply with_initial_points_lookup; [exact Hs|].
    now apply categories_fresh. }
  assert (Hcatnum : forall cw, cw ∈ categories ->
            forall xs, columns df !! fst cw <> Some (StrCol xs)).
  { intros [cat dflt] Hin xs. exact (Hnum cat dflt xs Hin). }
  (* the values of the row *)
  assert (Hvals : exists vs,
            Forall2 (fun cw v => category_value scoring df i cw = Some v
                                 /\ is_numeric v
                                 /\ value_status v = category_status df i cw)
                    categories vs).
  { assert (Hall : Forall (fun cw => cw ∈ categories) categories)
      by (apply Forall_forall; auto).
    induction Hall as [|cw l Hin _ [vs IH]]; [exists []; constructor|].
    destruct (category_value_numeric scoring df i cw Hwf Hi (Hcatnum cw Hin))
      as (v & Hv).
    exists (v :: vs). now constructor. }
  destruct Hvals as [vs Hvs].
  (* the columns *)
  assert (Hsteps : Forall (fun st => fst st ∈ categories) scoring_steps).
  { apply Forall_forall. intros st Hin. unfold categories.
    now apply list_elem_of_fmap_2. }
  destruct (step_outputs_total scoring df0 scoring_steps) as [outs Houts].
  { eapply Forall_impl; [exact Hsteps|]. intros st Hin. cbn beta.
    rewrite (Hext _ Hin).
    destruct (category_column_numeric scoring df (fst st) Hwf
                (Hcatnum _ Hin)) as (c & -> & _). eauto. }
  assert (Hnames : Forall2 (fun st oc =>
                     fst st ∈ categories
                     /\ category_column scoring df0 (fst st) = Some (snd oc))
                   scoring_steps outs).
  { pose proof (step_outputs_names _ _ _ _ Houts) as Hnames.
    clear -Hnames Hsteps.
    induction Hnames as [|st oc steps outs [_ Hc] _ IH]; [constructor|].
    apply Forall_cons in Hsteps as [Hin Hsteps].
    constructor; [now split | now apply IH]. }
  assert (Hcols : Forall (fun c => is_numeric_column c
                                   /\ column_length c = height df)
                         (map snd outs)).
  { apply Forall_fmap. clear -Hnames Hext Hwf Hcatnum.
    induction Hnames as [|st oc steps outs [Hin Hc] _ IH]; [constructor|].
    constructor; [|exact IH].
    rewrite (Hext _ Hin) in Hc.
    destruct (category_column_numeric scoring df (fst st) Hwf
                (Hcatnum _ Hin)) as (c & Hc' & Hn & Hl).
    rewrite Hc in Hc'. injection Hc' as <-. cbn. now split. }
  destruct (sum_columns_numeric (height df) (map snd outs)) as
    (total & Htotal & Hnt & Hlt).
  { apply Forall2_length in Hnames. destruct outs; [discriminate Hnames|].
    discriminate. }
  { exact Hcols. }
  assert (Hrows : Forall2 (fun c v => column_row c i = Some v)
                          (map snd outs) vs).
  { apply Forall2_fmap_l.
    unfold categories in Hvs. apply Forall2_fmap_l in Hvs.
    pose proof (Forall2_join _ _ _ _ _ Hnames Hvs) as Hj.
    eapply Forall2_impl; [exact Hj|].
    intros oc v (st & [Hin Hc] & Hv & _). cbn in Hv |- *.
    rewrite <- Hv.
    rewrite (category_column_row scoring df0 (fst st) (snd oc) i)
      by (try exact Hc; lia).
    unfold category_value, df0.
    rewrite (with_initial_points_lookup df (fst st).1 Hs
               (categories_fresh _ Hin)).
    reflexivity. }
  destruct (sum_columns_row i _ _ _ Htotal Hrows) as (v & Hv & Hrow).
  exists vs, v. split; [exact Hvs|]. split; [exact Hv|].
  assert (Hnv : is_numeric v).
  { destruct total; cbn in Hnt, Hrow; try contradiction;
      destruct (_ !! i); cbn in Hrow; try discriminate Hrow;
      injection Hrow as <-; exact I. }
  split; [exact Hnv|].
  unfold scored_points. rewrite calculate_fantasy_points_columns.
  fold df0. unfold scored_columns. rewrite Houts. cbn [mbind option_bind].
  rewrite Htotal. cbn [mbind option_bind columns].
  rewrite lookup_insert_eq. cbn [mbind option_bind].
  unfold numeric_cell. rewrite Hrow. reflexivity.
Qed.

(** *** The three kinds of rows *)


Lemma row_statuses scoring df i (cats : list (string * number))
    (vs : list value) :
  Forall2 (fun cw v => category_value scoring df i cw = Some v
                       /\ is_numeric v
                       /\ value_status v = category_status df i cw) cats vs ->
  map value_status vs = map (category_status df i) cats
  /\ Forall is_numeric vs.
Proof.
  induction 1 as [|cw v cats vs (_ & Hn & Hs) _ [IH1 IH2]].
  - split; [reflexivity | constructor].
  - split; [cbn [map]; now rewrite Hs, IH1 | now constructor].
Qed.

Lemma sum_values_max (vs : list value) v :
  Forall is_numeric vs -> sum_values vs = Some v ->
  value_status v = max_list (map value_status vs).
Proof.
  intros H Hsum. destruct H as [|a vs Ha H]; [discriminate Hsum|].
  destruct (sum_values_status vs H a Ha) as (v' & Hv' & _ & Hs).
  unfold sum_values in Hsum. rewrite Hsum in Hv'. injection Hv' as <-.
  exact Hs.
Qed.

Lemma category_status_bound df i cw : (category_status df i cw <= 2)%nat.
Proof.
  unfold category_status. destruct (columns df !! cw.1) as [c|]; [|lia].
  destruct (numeric_cell c i) as [[[|x]|]|]; cbn; lia.
Qed.

(** Row [i] of the scored frame is null as soon as one present category is,
    and NaN when one is NaN and none is null. *)
Lemma scored_points_status scoring df i :
  frame_wf df -> (i < height df)%nat -> numeric_categories df ->
  exists x, scored_points scoring df i = Some x
            /\ cell_status x = max_list (map (category_status df i) categories).
Proof.
  intros Hwf Hi Hnum.
  destruct (scored_points_row scoring df i Hwf Hi Hnum)
    as (vs & v & Hvs & Hsum & Hnv & Hsp).
  destruct (row_statuses _ _ _ _ _ Hvs) as [Hst Hall].
  pose proof (sum_values_max vs v Hall Hsum) as Hmax.
  rewrite Hst in Hmax. rewrite Hsp.
  unfold value_status in Hmax.
  destruct v as [x|w x|x]; cbn in Hnv |- *; [| |contradiction];
    eexists; (split; [reflexivity | exact Hmax]).
Qed.

Lemma row_without_null_numeric df i :
  frame_wf df -> (i < height df)%nat ->
  row_without_null df i -> numeric_categories df.
Proof.
  intros _ _ H cat dflt xs Hin Hc.
  destruct (H cat dflt _ Hin Hc) as [x Hx].
  unfold numeric_cell in Hx. cbn in Hx. destruct (xs !! i); discriminate Hx.
Qed.


Lemma scored_points_nan scoring df i :
  frame_wf df -> (i < height df)%nat ->
  row_without_null df i -> row_has_nan df i ->
  scored_points scoring df i = Some (Some nan).
Proof.
  intros Hwf Hi Hnn (cat & dflt & c & Hin & Hc & Hnan).
  pose proof (row_without_null_numeric df i Hwf Hi Hnn) as Hnum.
  destruct (scored_points_status scoring df i Hwf Hi Hnum) as (x & -> & Hs).
  assert (H1 : (1 <= max_list (map (category_status df i) categories))%nat).
  { apply max_list_elem_of_le.
    apply (list_elem_of_fmap_2' _ _ (cat, dflt)); [exact Hin|].
    unfold category_status. cbn [fst]. rewrite Hc, Hnan. reflexivity. }
  assert (H2 : (max_list (map (category_status df i) categories) <= 1)%nat).
  { apply max_list_bound. apply Forall_fmap, Forall_forall.
    intros [cat' dflt'] Hin'. cbn. unfold category_status. cbn [fst].
    destruct (columns df !! cat') as [c'|] eqn:Hc'; [|lia].
    destruct (Hnn cat' dflt' c' Hin' Hc') as [y ->]. destruct y; cbn; lia. }
  rewrite <- Hs in H1, H2. clear Hs.
  destruct x as [[|x]|]; cbn in H1, H2; [reflexivity | lia | lia].
Qed.




(** *** The frame scoring returns *)

Lemma insert_all_lookup_notin (outs : list (string * column))
    (m : gmap string column) (k : string) :
  k ∉ map fst outs -> insert_all outs m !! k = m !! k.
Proof.
  revert m. induction outs as [|[o c] outs IH]; intros m Hk; [reflexivity|].
  cbn [map fst] in Hk. apply not_elem_of_cons in Hk as [Hne Hk].
  unfold insert_all. cbn [foldl fst snd]. fold (insert_all outs (<[o:=c]> m)).
  rewrite IH by exact Hk. apply lookup_insert_ne. congruence.
Qed.

Lemma insert_all_lookup_in (outs : list (string * column))
    (m m' : gmap string column) (k : string) :
  k ∈ map fst outs ->
  insert_all outs m !! k = insert_all outs m' !! k
  /\ is_Some (insert_all outs m !! k).
Proof.
  revert m m'. induction outs as [|[o c] outs IH]; intros m m' Hk;
    [inversion Hk|].
  unfold insert_all. cbn [foldl fst snd].
  fold (insert_all outs (<[o:=c]> m)). fold (insert_all outs (<[o:=c]> m')).
  destruct (decide (k ∈ map fst outs)) as [Hin | Hnin].
  - now apply IH.
  - cbn [map fst] in Hk. apply elem_of_cons in Hk as [-> | Hk];
      [|contradiction].
    rewrite !insert_all_lookup_notin by exact Hnin.
    rewrite !lookup_insert_eq. split; [reflexivity | eauto].
Qed.

Lemma insert_all_Forall (P : string -> column -> Prop)
    (outs : list (string * column)) (m : gmap string column) :
  Forall (fun oc => P (fst oc) (snd oc)) outs ->
  map_Forall P m -> map_Forall P (insert_all outs m).
Proof.
  intros H. revert m. induction H as [|[o c] outs Hoc _ IH]; intros m Hm;
    [exact Hm|].
  unfold insert_all. cbn [foldl fst snd]. apply IH.
  now apply map_Forall_insert_2.
Qed.

Lemma with_initial_points_other df name :
  name <> "fantasy_points" ->
  columns (with_initial_points df) !! name = columns df !! name.
Proof.
  intros Hne. unfold with_initial_points.
  destruct (columns df !! "fantasy_points"); [reflexivity|].
  unfold with_lit. destruct (decide (size (columns df) = 0%nat)) as [Hs|Hs].
  - apply map_size_empty_iff in Hs. rewrite Hs. cbn [columns].
    rewrite lookup_empty. apply lookup_singleton_ne. congruence.
  - cbn [columns with_column]. apply lookup_insert_ne. congruence.
Qed.

Lemma with_initial_points_scored_height df :
  height (with_initial_points df) = scored_height df.
Proof.
  unfold with_initial_points, scored_height, with_lit.
  destruct (columns df !! "fantasy_points") as [c|] eqn:Hc.
  - destruct (decide (size (columns df) = 0%nat)) as [Hs|Hs];
      [|reflexivity].
    exfalso. exact (size_lookup_nonempty _ _ _ Hc Hs).
  - destruct (decide (size (columns df) = 0%nat)); reflexivity.
Qed.

Lemma with_initial_points_wf df :
  frame_wf df -> frame_wf (with_initial_points df).
Proof.
  intros Hwf. unfold with_initial_points.
  destruct (columns df !! "fantasy_points"); [exact Hwf|].
  unfold with_lit. destruct (decide (size (columns df) = 0%nat)).
  - split; cbn [columns height].
    + apply map_Forall_singleton. reflexivity.
    + intros H. exfalso. exact (insert_non_empty _ _ _ H).
  - destruct Hwf as [Hlen _]. split; cbn [columns height with_column].
    + apply map_Forall_insert_2; [|exact Hlen]. cbn.
      apply length_replicate.
    + intros H. exfalso. exact (insert_non_empty _ _ _ H).
Qed.

Lemma with_initial_points_numeric df :
  numeric_categories df -> numeric_categories (with_initial_points df).
Proof.
  intros Hnum cat dflt xs Hin.
  rewrite with_initial_points_other
    by exact (categories_fresh (cat, dflt) Hin).
  now apply (Hnum cat dflt).
Qed.

Lemma step_outputs_fst scoring df steps outs :
  step_outputs scoring df steps = Some outs ->
  map fst outs = map snd steps.
Proof.
  intros H. apply step_outputs_names in H.
  induction H as [|st oc steps outs [Hn _] _ IH]; [reflexivity|].
  cbn [map]. now rewrite Hn, IH.
Qed.

(** On a frame whose present categories are numeric, every block and the
    final sum succeed. *)
Lemma scored_columns_total scoring df :
  frame_wf df -> numeric_categories df ->
  exists outs total,
    step_outputs scoring df scoring_steps = Some outs
    /\ sum_columns (map snd outs) = Some total
    /\ Forall (fun oc => column_length (snd oc) = height df) outs
    /\ column_length total = height df.
Proof.
  intros Hwf Hnum.
  assert (Hcat : forall st, st ∈ scoring_steps ->
            exists c, category_column scoring df (fst st) = Some c
                      /\ is_numeric_column c /\ column_length c = height df).
  { intros st Hin. apply category_column_numeric; [exact Hwf|].
    intros xs. destruct st as [[cat dflt] out]. apply (Hnum cat dflt).
    unfold categories. now apply (list_elem_of_fmap_2 fst) in Hin. }
  destruct (step_outputs_total scoring df scoring_steps) as [outs Houts].
  { apply Forall_forall. intros st Hin.
    destruct (Hcat st Hin) as (c & -> & _). eauto. }
  assert (Hcols : Forall (fun oc => is_numeric_column (snd oc)
                                    /\ column_length (snd oc) = height df)
                         outs).
  { pose proof (step_outputs_names _ _ _ _ Houts) as Hnames.
    assert (Hall : Forall (fun st =>
              exists c, category_column scoring df (fst st) = Some c
                        /\ is_numeric_column c
                        /\ column_length c = height df) scoring_steps)
      by (apply Forall_forall; exact Hcat).
    clear Houts Hcat. remember scoring_steps as steps eqn:Hsteps.
    clear Hsteps.
    induction Hnames as [|st oc steps outs [_ Hc] _ IH]; [constructor|].
    apply Forall_cons in Hall as [(c & Hc' & Hn & Hl) Hall].
    constructor; [|now apply IH].
    rewrite Hc in Hc'. injection Hc' as <-. now split. }
  destruct (sum_columns_numeric (height df) (map snd outs))
    as (total & Htotal & _ & Hlt).
  { apply step_outputs_fst in Houts. destruct outs; [discriminate Houts|].
    discriminate. }
  { apply Forall_fmap. eapply Forall_impl; [exact Hcols|]. auto. }
  exists outs, total. split; [exact Houts|]. split; [exact Htotal|].
  split; [|exact Hlt].
  eapply Forall_impl; [exact Hcols|]. now intros oc [_ H].
Qed.

Lemma written_columns_outputs name :
  name ∈ written_columns
  <-> name = "fantasy_points" \/ name ∈ map snd scoring_steps.
Proof.
  unfold written_columns, scoring_steps. cbn [map snd].
  rewrite elem_of_cons. reflexivity.
Qed.

(** Scoring a frame whose present categories are numeric returns the input
    with the eleven written columns added or replaced. *)
Lemma calculate_fantasy_points_total scoring df :
  frame_wf df -> numeric_categories df ->
  exists df',
    calculate_fantasy_points scoring df = Some df'
    /\ height df' = scored_height df
    /\ (forall name, name ∉ written_columns ->
                     columns df' !! name = columns df !! name)
    /\ (forall name, name ∈ written_columns ->
                     is_Some (columns df' !! name))
    /\ frame_wf df'.
Proof.
  intros Hwf Hnum.
  pose proof (with_initial_points_wf df Hwf) as Hwf0.
  pose proof (with_initial_points_numeric df Hnum) as Hnum0.
  destruct (scored_columns_total scoring _ Hwf0 Hnum0)
    as (outs & total & Houts & Htotal & Hlen & Hlt).
  pose proof (step_outputs_fst _ _ _ _ Houts) as Hfst.
  rewrite calculate_fantasy_points_columns. unfold scored_columns.
  rewrite Houts. cbn [mbind option_bind]. rewrite Htotal.
  cbn [mbind option_bind]. eexists. split; [reflexivity|].
  cbn [height columns]. split; [apply with_initial_points_scored_height|].
  split; [|split].
  - intros name Hname. rewrite written_columns_outputs in Hname.
    rewrite lookup_insert_ne by (intros <-; apply Hname; now left).
    rewrite insert_all_lookup_notin
      by (rewrite Hfst; intros H; apply Hname; now right).
    apply with_initial_points_other. intros ->. apply Hname. now left.
  - intros name Hname. apply written_columns_outputs in Hname.
    destruct (decide (name = "fantasy_points")) as [-> | Hne].
    + rewrite lookup_insert_eq. eauto.
    + rewrite lookup_insert_ne by congruence.
      destruct Hname as [-> | Hname]; [contradiction|].
      rewrite <- Hfst in Hname.
      exact (proj2 (insert_all_lookup_in outs _ ∅ name Hname)).
  - split; cbn [height columns].
    + apply map_Forall_insert_2; [exact Hlt|].
      apply insert_all_Forall; [exact Hlen | exact (proj1 Hwf0)].
    + intros H. exfalso. exact (insert_non_empty _ _ _ H).
Qed.

(** *** Concrete frames *)

Lemma plain_frame_wf : frame_wf plain_frame.
Proof. unfold plain_frame. concrete_wf. Qed.


Lemma nan_frame_wf : frame_wf nan_frame.
Proof. unfold nan_frame. concrete_wf. Qed.

Lemma int8_frame_wf : frame_wf int8_frame.
Proof. unfold int8_frame. concrete_wf. Qed.

Lemma empty_frame_wf : frame_wf empty_frame.
Proof. split; [apply map_Forall_empty | reflexivity]. Qed.

Lemma plain_frame_numeric : numeric_categories plain_frame.
Proof.
  intros cat dflt xs Hin Hc.
  each_category Hin ltac:(vm_compute in Hc; discriminate Hc).
Qed.


Lemma empty_frame_numeric : numeric_categories empty_frame.
Proof. intros cat dflt xs Hin Hc. discriminate Hc. Qed.





Lemma nan_frame_without_null : row_without_null nan_frame 0.
Proof.
  intros cat dflt c Hin Hc.
  each_category Hin
    ltac:(vm_compute in Hc;
          first [discriminate Hc | injection Hc as <-; eexists; reflexivity]).
Qed.

Lemma nan_frame_has_nan : row_has_nan nan_frame 0.
Proof.
  exists "rushing_yards", (PyFloat 0.1), (FloatCol [Some nan]).
  split; [|split].
  - unfold categories, scoring_steps. cbn [map fst].
    do 3 (apply elem_of_cons; right). apply elem_of_cons. now left.
  - reflexivity.
  - reflexivity.
Qed.

(** *** The claims about the scoring engine *)




Lemma score_category_weight scoring scoring' cat dflt out df :
  dict_get scoring cat dflt = dict_get scoring' cat dflt ->
  score_category scoring cat dflt out df
  = score_category scoring' cat dflt out df.
Proof. intros H. unfold score_category. now rewrite H. Qed.

(** C10.  Scoring with an empty weight map gives, for every input table,
    the same result as scoring with the standard rule; so does the
    calculator the predictor builds from a configuration without a
    [scoring] section. *)
Theorem C10_empty_scoring_is_standard (df : Frame) :
  calculate_fantasy_points (FantasyPointCalculator (Some ∅)) df
  = calculate_fantasy_points (FantasyPointCalculator None) df
  /\ calculate_fantasy_points (predictor_calculator None) df
     = calculate_fantasy_points (FantasyPointCalculator None) df.
Proof.
  assert (H : calculate_fantasy_points ∅ df
              = calculate_fantasy_points standard_scoring df).
  { rewrite !calculate_fantasy_points_score_then.
    generalize (with_initial_points df). intros df0.
    assert (Hw : Forall (fun st : string * number * string =>
                    dict_get standard_scoring (fst (fst st)) (snd (fst st))
                    = dict_get ∅ (fst (fst st)) (snd (fst st)))
                        scoring_steps)
      by (unfold scoring_steps; repeat constructor).
    revert df0. induction Hw as [|st steps Hst _ IH]; intros df0;
      [reflexivity|].
    cbn [score_then].
    rewrite (score_category_weight ∅ standard_scoring) by (symmetry; exact Hst).
    destruct (score_category standard_scoring _ _ _ df0); [|reflexivity].
    cbn [mbind option_bind]. apply IH. }
  split; exact H.
Qed.

(** ** Season predictor: recency weights *)


(** The weight the code gives to the entry at position [j] of the frame:
    the first row of the lookback window gets the largest one. *)
Lemma recency_weights_lookup (n j : nat) :
  (j < n)%nat ->
  recency_weights n !! j
  = Some (1 + inject_Z (Z.of_nat (n - S j)) * 0.3)%Q.
Proof.
  intros Hj. unfold recency_weights.
  rewrite reverse_lookup by (now rewrite length_map, length_seq).
  rewrite length_map, length_seq, list_lookup_fmap.
  rewrite lookup_seq_lt by lia. reflexivity.
Qed.

(** C1 at the failing input: one player with seasons 2023, 2024, 2025 (10,
    12 and 14 points per game), the rows in season-ascending order.  The
    code pairs the reversed weights 1.6, 1.3, 1.0 with the rows in frame
    order, so 2023 weighs most and the result is 152/13; the specification's
    weighting (2025 weighs most) gives 160/13. *)
Theorem C1_largest_weight_goes_to_first_row :
  map snd (valid_pairs (recent_data cfg_2026 ascending_df "P1"))
  = [10; 12; 14]%Q
  /\ Forall2 Qeq (recency_weights 3) [1.6; 1.3; 1]%Q
  /\ (weighted_avg [10; 12; 14] == 152 # 13)%Q
  /\ (spec_weighted_avg (valid_pairs (recent_data cfg_2026 ascending_df "P1"))
      == 160 # 13)%Q
  /\ ~ (weighted_avg
          (map snd (valid_pairs (recent_data cfg_2026 ascending_df "P1")))
        == spec_weighted_avg
             (valid_pairs (recent_data cfg_2026 ascending_df "P1")))%Q.
Proof.
  split; [vm_compute; reflexivity|].
  split; [repeat constructor; vm_compute; reflexivity|].
  split; [vm_compute; reflexivity|].
  split; [vm_compute; reflexivity|].
  vm_compute. discriminate.
Qed.

(** ** Season predictor: lookback window *)

(** C2 (as amended).  The lookback window is exactly the player's summaries
    with [season >= target_season - 3], in frame order; nothing bounds the
    season from above.  When the window is empty no prediction is returned
    and nothing is raised. *)
Theorem C2_lookback_selection
    (pl_sort : forall A : Type, (A -> A -> bool) -> list A -> list A)
    (cfg : Config) (seasonal_df : list Seasonal.row) (pid : string) :
  recent_data cfg seasonal_df pid
  = filter (fun r => (target_season cfg - 3 <= Seasonal.season r)%Z
                     /\ Seasonal.player_id r = pid) seasonal_df
  /\ (recent_data cfg seasonal_df pid = [] ->
      predict_player_2026 pl_sort cfg seasonal_df pid = Returned None).
Proof.
  split.
  - unfold recent_data, player_rows. apply list_filter_filter.
  - intros Hnone. unfold predict_player_2026. rewrite Hnone.
    destruct (player_rows seasonal_df pid); reflexivity.
Qed.

Lemma C2_lookback_selection_witness :
  recent_data cfg_2026 old_df "P1" = []
  /\ predict_player_2026 stable_sort cfg_2026 old_df "P1" = Returned None.
Proof.
  split; [reflexivity|].
  apply (C2_lookback_selection stable_sort cfg_2026 old_df "P1").
  reflexivity.
Defined.

(** C2 (as stated) fails: a summary for the target season itself passes the
    filter and is analysed. *)
Lemma C2_target_season_is_selected :
  recent_data cfg_2026 with_target_df "P1" = with_target_df
  /\ spec_lookback cfg_2026 with_target_df "P1" = [ summary "P1" 2025 "RB" 14 ]
  /\ recent_data cfg_2026 with_target_df "P1"
     <> spec_lookback cfg_2026 with_target_df "P1"
  /\ exists p, predict_player_2026 stable_sort cfg_2026 with_target_df "P1"
               = Returned (Some p)
               /\ Prediction.last_season p = 2026%Z
               /\ Prediction.seasons_analyzed p = 2%nat.
Proof.
  split; [reflexivity|]. split; [reflexivity|]. split.
  - vm_compute. discriminate.
  - eexists. split; [vm_compute; reflexivity|]. split; reflexivity.
Qed.

(** ** Orchestrator: eligibility *)

(** C4 at the failing input: a player with two summaries for the single
    season 2025 (listed at two positions).  The code counts summary rows,
    finds 2 and makes the player eligible under the default minimum of 2;
    the player has one distinct season. *)
Theorem C4_rows_counted_not_seasons :
  player_season_counts two_positions_df = [("P1", 2%nat)]
  /\ eligible_players cfg_2026 two_positions_df = ["P1"]
  /\ distinct_seasons two_positions_df "P1" = 1%nat
  /\ ~ spec_eligible cfg_2026 two_positions_df "P1".
Proof.
  split; [reflexivity|]. split; [reflexivity|]. split; [reflexivity|].
  intros [_ H]. vm_compute in H. apply H. reflexivity.
Qed.

(** ** Saving predictions *)

(** Whatever the format string, [save_predictions] has no branch that
    rejects it: with a format other than ["parquet"] and ["csv"], a call
    that returns has written the predictions as JSON to the path it
    returns. *)
Lemma save_predictions_other_formats (cfg : Config)
    (predictions_df : list Prediction.row) (fs fs' : file_system)
    (fmt : string) (p : path) :
  output_format cfg = Some fmt ->
  fmt <> "parquet" -> fmt <> "csv" ->
  save_predictions cfg predictions_df fs = (fs', Done p) ->
  p = joinpath (Path (output_directory cfg)) ("predictions_2026." ++ fmt)
  /\ files fs' !! p = Some (Json predictions_df).
Proof.
  intros Hfmt Hp Hc. unfold save_predictions. rewrite Hfmt.
  apply String.eqb_neq in Hp, Hc.
  cbv zeta. simpl default. rewrite Hp, Hc.
  destruct (mkdir_parents (Path (output_directory cfg)) fs) as [fs1|e];
    [|discriminate].
  unfold write_file.
  destruct (is_dir fs1 _); [discriminate|].
  destruct (is_dir fs1 _); [|destruct (existsb _ _); discriminate].
  intros [= <- <-]. split; [reflexivity|]. cbn [files].
  apply lookup_insert_eq.
Qed.

(** A format with a separator in it names a file in a directory that does
    not exist: the write fails, after the output directory was made. *)
Lemma save_predictions_nested_format (predictions_df : list Prediction.row) :
  snd (save_predictions cfg_nested predictions_df empty_fs)
  = Failed FileNotFoundError
  /\ Path "" = (false, [])
  /\ joinpath (Path "") "predictions_2026.xml"
     = (false, ["predictions_2026.xml"])
  /\ joinpath (Path "/srv//data/./") "predictions_2026.csv"
     = (true, ["srv"; "data"; "predictions_2026.csv"]).
Proof. repeat split; vm_compute; reflexivity. Qed.

(** C5.  The code diverges from the claim: with the output format ["xml"],
    which is none of the supported ones, and the output directory ["out"],
    [save_predictions] raises nothing; it creates the directory, writes the
    predictions as JSON to [out/predictions_2026.xml] and returns that
    path. *)
Theorem C5_unsupported_format_is_written
    (predictions_df : list Prediction.row) :
  ~ supported_format "xml"
  /\ output_format cfg_xml = Some "xml"
  /\ exists fs',
       save_predictions cfg_xml predictions_df empty_fs
       = (fs', Done (false, ["out"; "predictions_2026.xml"]))
       /\ files fs' !! (false, ["out"; "predictions_2026.xml"])
          = Some (Json predictions_df)
       /\ is_dir fs' (false, ["out"]) = true.
Proof.
  split; [intros [H | [H | H]]; discriminate H|].
  split; [reflexivity|].
  eexists. split; [vm_compute; reflexivity|].
  split; [vm_compute; reflexivity | vm_compute; reflexivity].
Qed.

(** ** Orchestrator: the per-player loop *)

(** The predictions collected by the loop are those of the players for
    which the predictor returned a result, in the order of the players. *)
Lemma collect_predictions_spec
    (predict : list Seasonal.row -> string -> outcome (option Prediction.row))
    (seasonal_df : list Seasonal.row) (players : list string) :
  collect_predictions predict seasonal_df players
  = omap (fun pid => match predict seasonal_df pid with
                     | Returned (Some prediction) => Some prediction
                     | _ => None
                     end) players.
Proof.
  induction players as [|pid rest IH]; [reflexivity|].
  cbn [collect_predictions]. rewrite IH. simpl.
  destruct (predict seasonal_df pid) as [[p|]|e]; reflexivity.
Qed.

Lemma collect_predictions_app predict seasonal_df (before after : list string) :
  collect_predictions predict seasonal_df (before ++ after)%list
  = (collect_predictions predict seasonal_df before
     ++ collect_predictions predict seasonal_df after)%list.
Proof. rewrite !collect_predictions_spec. apply omap_app. Qed.

(** C8.  The orchestrator raises if and only if the loop over the eligible
    players collected no prediction, and returns the sorted predictions
    otherwise.  A player for which the predictor raises is skipped: the
    predictions collected for the players before and after it are those
    collected without it. *)
Theorem C8_only_empty_result_is_fatal
    (pl_sort : forall A : Type, (A -> A -> bool) -> list A -> list A)
    (predict : list Seasonal.row -> string -> outcome (option Prediction.row))
    (cfg : Config) (seasonal_df : list Seasonal.row) :
  ((exists e, predict_all_players_with pl_sort predict cfg seasonal_df = Raised e)
   <-> collect_predictions predict seasonal_df
         (eligible_players cfg seasonal_df) = [])
  /\ (collect_predictions predict seasonal_df
        (eligible_players cfg seasonal_df) <> [] ->
      predict_all_players_with pl_sort predict cfg seasonal_df
      = Returned (sort_predictions pl_sort
                    (collect_predictions predict seasonal_df
                       (eligible_players cfg seasonal_df))))
  /\ (forall before pid after e,
        predict seasonal_df pid = Raised e ->
        collect_predictions predict seasonal_df (before ++ pid :: after)%list
        = collect_predictions predict seasonal_df (before ++ after)%list)
  /\ (forall p players,
        p ∈ collect_predictions predict seasonal_df players
        <-> exists pid, pid ∈ players
                        /\ predict seasonal_df pid = Returned (Some p)).
Proof.
  unfold predict_all_players_with.
  split; [|split; [|split]].
  - destruct (collect_predictions predict seasonal_df
                (eligible_players cfg seasonal_df)) as [|p ps]; split.
    + reflexivity.
    + intros _. eexists. reflexivity.
    + intros [e He]. discriminate He.
    + intros H. discriminate H.
  - destruct (collect_predictions predict seasonal_df
                (eligible_players cfg seasonal_df)) as [|p ps]; intros H.
    + now destruct H.
    + reflexivity.
  - intros before pid after e He.
    rewrite !collect_predictions_app. simpl. now rewrite He.
  - intros p players. rewrite collect_predictions_spec, list_elem_of_omap.
    split; intros (pid & Hin & Hp); exists pid; split; try exact Hin.
    + destruct (predict seasonal_df pid) as [[q|]|e]; congruence.
    + now rewrite Hp.
Qed.

(** ** Insertion sort meets the contract of [DataFrame.sort] *)


Section insertion_sort.
Context {A : Type} (le : A -> A -> bool).

Lemma sort_insert_perm (x : A) (l : list A) :
  Permutation (x :: l) (sort_insert le x l).
Proof.
  induction l as [|y l IH]; simpl; [reflexivity|].
  destruct (le x y && negb (le y x)); [reflexivity|].
  rewrite perm_swap. now apply perm_skip.
Qed.

Lemma insertion_fold_perm (l acc : list A) :
  Permutation (l ++ acc)
    (foldl (fun acc x => sort_insert le x acc) acc l).
Proof.
  revert acc. induction l as [|x l IH]; intros acc; simpl; [reflexivity|].
  rewrite <- IH. rewrite <- sort_insert_perm.
  apply Permutation_middle.
Qed.


Hypothesis le_total : forall x y, le x y = true \/ le y x = true.
Hypothesis le_trans :
  forall x y z, le x y = true -> le y z = true -> le x z = true.




End insertion_sort.

Lemma stable_sort_permutes : sort_permutes stable_sort.
Proof.
  intros A le l. unfold stable_sort.
  rewrite <- insertion_fold_perm. now rewrite app_nil_r.
Qed.



Lemma C8_only_empty_result_is_fatal_witness :
  flaky_predict tie_df "P2" = Raised (ValueError "no data")
  /\ collect_predictions flaky_predict tie_df
       (eligible_players cfg_2026 tie_df) <> []
  /\ predict_all_players_with stable_sort flaky_predict cfg_2026 tie_df
     = Returned (sort_predictions stable_sort
                   (collect_predictions flaky_predict tie_df
                      (eligible_players cfg_2026 tie_df)))
  /\ collect_predictions flaky_predict tie_df (["P1"] ++ "P2" :: ["P1"])%list
     = collect_predictions flaky_predict tie_df (["P1"] ++ ["P1"])%list.
Proof.
  destruct (C8_only_empty_result_is_fatal stable_sort flaky_predict cfg_2026
              tie_df) as (_ & Hok & Hskip & _).
  assert (Hne : collect_predictions flaky_predict tie_df
                  (eligible_players cfg_2026 tie_df) <> []).
  { vm_compute. discriminate. }
  split; [reflexivity|]. split; [exact Hne|]. split.
  - exact (Hok Hne).
  - exact (Hskip ["P1"] "P2" ["P1"] (ValueError "no data") eq_refl).
Defined.

(** ** Orchestrator: the final sort *)





(** ** Seasonal aggregator: consistency score *)













(** ** Trend estimator *)

Lemma sigmaZ_perm (l l' : list Z) : Permutation l l' -> sigmaZ l = sigmaZ l'.
Proof.
  induction 1 as [|x l l' _ IH|x y l|l l' l'' _ IH1 _ IH2]; simpl.
  - reflexivity.
  - f_equal. exact IH.
  - lia.
  - now rewrite IH1.
Qed.

Lemma sigmaQ_perm (l l' : list Q) :
  Permutation l l' -> (sigmaQ l == sigmaQ l')%Q.
Proof.
  induction 1 as [|x l l' _ IH|x y l|l l' l'' _ IH1 _ IH2]; simpl.
  - reflexivity.
  - apply Qplus_comp; [reflexivity | exact IH].
  - ring.
  - now rewrite IH1.
Qed.

Lemma ols_denominator_perm (pts pts' : list (Z * Q)) :
  Permutation pts pts' -> ols_denominator pts = ols_denominator pts'.
Proof.
  intros Hp. unfold ols_denominator.
  rewrite (Permutation_length Hp).
  rewrite (sigmaZ_perm (map fst pts) (map fst pts'))
    by now apply Permutation_map.
  rewrite (sigmaZ_perm (map (fun p => (fst p * fst p)%Z) pts)
                       (map (fun p => (fst p * fst p)%Z) pts'))
    by now apply Permutation_map.
  reflexivity.
Qed.

Lemma ols_slope_perm (pts pts' : list (Z * Q)) :
  Permutation pts pts' -> (ols_slope pts == ols_slope pts')%Q.
Proof.
  intros Hp. unfold ols_slope.
  rewrite (ols_denominator_perm pts pts' Hp), (Permutation_length Hp).
  rewrite (sigmaZ_perm (map fst pts) (map fst pts'))
    by now apply Permutation_map.
  rewrite (sigmaQ_perm (map snd pts) (map snd pts'))
    by now apply Permutation_map.
  rewrite (sigmaQ_perm (map (fun p => inject_Z (fst p) * snd p)%Q pts)
                       (map (fun p => inject_Z (fst p) * snd p)%Q pts'))
    by now apply Permutation_map.
  reflexivity.
Qed.

(** The integer denominator the code tests is the one of the formula. *)
Lemma regression_denominator (pts : list (Z * Q)) :
  (Z.of_nat (length (map fst pts))
   * sumZ (map (fun s => s * s) (map fst pts))
   - sumZ (map fst pts) * sumZ (map fst pts))%Z
  = ols_denominator pts.
Proof.
  unfold ols_denominator. rewrite !sumZ_sigmaZ, length_map.
  rewrite (map_map fst (fun s => (s * s)%Z)). reflexivity.
Qed.

Lemma regression_slope_zero (pts : list (Z * Q)) :
  ols_denominator pts = 0%Z -> regression_slope pts = 0%Q.
Proof.
  intros Hd. unfold regression_slope. cbv zeta.
  rewrite regression_denominator, Hd. reflexivity.
Qed.

Lemma regression_slope_ols (pts : list (Z * Q)) :
  ols_denominator pts <> 0%Z -> (regression_slope pts == ols_slope pts)%Q.
Proof.
  intros Hd. unfold regression_slope. cbv zeta.
  rewrite regression_denominator.
  destruct (Z.eqb_spec (ols_denominator pts) 0) as [H0|_]; [contradiction|].
  unfold ols_slope. rewrite !sumQ_sigmaQ, sumZ_sigmaZ, length_map.
  reflexivity.
Qed.

Lemma valid_pairs_length (rows : list Seasonal.row) :
  (length (valid_pairs rows) <= length rows)%nat.
Proof.
  unfold valid_pairs. induction rows as [|r rows IH]; simpl; [lia|].
  destruct (valid_value (Seasonal.avg_fp_per_game r)); simpl.
  - apply (proj1 (Nat.succ_le_mono _ _)), IH.
  - apply Nat.le_le_succ_r, IH.
Qed.

(** What [calculate_trend] returns, in terms of the player's valid points
    in frame order. *)
Lemma calculate_trend_cases
    (pl_sort : forall A : Type, (A -> A -> bool) -> list A -> list A)
    (seasonal_df : list Seasonal.row) (pid : string) :
  sort_permutes pl_sort ->
  exists pts',
    Permutation (valid_pairs (player_rows seasonal_df pid)) pts'
    /\ calculate_trend pl_sort seasonal_df pid
       = if (length (valid_pairs (player_rows seasonal_df pid)) <? 2)%nat
         then 0%Q else regression_slope pts'.
Proof.
  intros Hperm. unfold calculate_trend. cbv zeta.
  set (rows := player_rows seasonal_df pid).
  set (sorted := pl_sort _ _ rows).
  assert (Hp : Permutation (valid_pairs rows) (valid_pairs sorted)).
  { unfold valid_pairs. apply omap_Permutation. apply Hperm. }
  exists (valid_pairs sorted). split; [exact Hp|].
  rewrite <- (Permutation_length Hp).
  pose proof (valid_pairs_length rows) as Hle.
  destruct (Nat.ltb_spec (length rows) 2);
    destruct (Nat.ltb_spec (length (valid_pairs rows)) 2);
    try reflexivity; lia.
Qed.

(** The pairs the list comprehension keeps are those of the specification:
    the rows of the player whose average is a number. *)
Lemma valid_pairs_spec_points (seasonal_df : list Seasonal.row) (pid : string) :
  valid_pairs (player_rows seasonal_df pid) = spec_points seasonal_df pid.
Proof.
  unfold player_rows, spec_points, valid_pairs.
  induction seasonal_df as [|r df IH]; [reflexivity|].
  rewrite filter_cons. cbn [List.filter].
  destruct (decide (Seasonal.player_id r = pid)) as [Heq | Hne].
  - rewrite (proj2 (String.eqb_eq _ _) Heq). cbn [andb omap list_omap].
    assert (Hcase : (valid_value (Seasonal.avg_fp_per_game r) = None
                     /\ has_average r = false)
                    \/ (valid_value (Seasonal.avg_fp_per_game r)
                        = Some (average_of r)
                        /\ has_average r = true)).
    { unfold has_average, average_of, valid_value.
      destruct (Seasonal.avg_fp_per_game r) as [[|v]|]; auto. }
    destruct Hcase as [[-> ->] | [-> ->]].
    + exact IH.
    + cbn [map]. f_equal. exact IH.
  - rewrite (proj2 (String.eqb_neq _ _) Hne). cbn [andb]. exact IH.
Qed.

Lemma spec_points_elem (seasonal_df : list Seasonal.row) (pid : string)
    (s : Z) (v : Q) :
  (s, v) ∈ spec_points seasonal_df pid
  <-> exists r, r ∈ seasonal_df /\ Seasonal.player_id r = pid
                /\ Seasonal.season r = s
                /\ Seasonal.avg_fp_per_game r = Some (fin v).
Proof.
  unfold spec_points. split.
  - intros H. apply list_elem_of_fmap_1 in H as (r & Heq & Hin).
    apply list_elem_of_In, filter_In in Hin as [Hin Hp].
    apply andb_true_iff in Hp as [Hid Hav].
    apply String.eqb_eq in Hid. injection Heq as -> ->.
    exists r. split; [now apply list_elem_of_In|]. split; [exact Hid|].
    split; [reflexivity|]. unfold has_average, average_of in *.
    destruct (Seasonal.avg_fp_per_game r) as [[|x]|]; try discriminate Hav.
    reflexivity.
  - intros (r & Hin & Hid & Hs & Hav).
    apply (list_elem_of_fmap_2' _ _ r).
    + apply list_elem_of_In, filter_In. split; [now apply list_elem_of_In|].
      apply andb_true_iff. split; [now apply String.eqb_eq|].
      unfold has_average. now rewrite Hav.
    + unfold average_of. now rewrite Hs, Hav.
Qed.

(** C7.  The valid pairs are the (season, average) pairs of the player's
    summaries whose average is neither null nor NaN.  Over them,
    [calculate_trend] returns 0 when fewer than two pairs remain or the
    denominator [n Σx² - (Σx)²] is zero, and the least-squares slope
    [(n Σxy - Σx Σy) / (n Σx² - (Σx)²)] otherwise.  On (2020, 10),
    (2021, 12), (2022, 14) it returns 2; on (2020, 10), (2021, null) it
    returns 0; on (2020, 10), (2021, NaN), (2022, 14) it returns the slope
    2 of the two remaining points. *)
Theorem C7_trend_is_ols_slope
    (pl_sort : forall A : Type, (A -> A -> bool) -> list A -> list A)
    (seasonal_df : list Seasonal.row) (pid : string) :
  sort_permutes pl_sort ->
  (forall s v,
     (s, v) ∈ spec_points seasonal_df pid
     <-> exists r, r ∈ seasonal_df /\ Seasonal.player_id r = pid
                   /\ Seasonal.season r = s
                   /\ Seasonal.avg_fp_per_game r = Some (fin v))
  /\ ((length (spec_points seasonal_df pid) < 2)%nat ->
      calculate_trend pl_sort seasonal_df pid = 0%Q)
  /\ (ols_denominator (spec_points seasonal_df pid) = 0%Z ->
      calculate_trend pl_sort seasonal_df pid = 0%Q)
  /\ ((2 <= length (spec_points seasonal_df pid))%nat ->
      ols_denominator (spec_points seasonal_df pid) <> 0%Z ->
      (calculate_trend pl_sort seasonal_df pid
       == ols_slope (spec_points seasonal_df pid))%Q)
  /\ spec_points trend_example_df "P1"
     = [ (2020%Z, 10%Q); (2021%Z, 12%Q); (2022%Z, 14%Q) ]
  /\ (calculate_trend pl_sort trend_example_df "P1" == 2)%Q
  /\ calculate_trend pl_sort trend_null_df "P1" = 0%Q
  /\ (calculate_trend pl_sort trend_nan_df "P1" == 2)%Q.
Proof.
  intros Hperm.
  assert (Hzero : forall df p,
            (length (spec_points df p) < 2)%nat ->
            calculate_trend pl_sort df p = 0%Q).
  { intros df p Hlen. rewrite <- valid_pairs_spec_points in Hlen.
    destruct (calculate_trend_cases pl_sort df p Hperm) as (pts' & Hp & ->).
    destruct (Nat.ltb_spec (length (valid_pairs (player_rows df p))) 2);
      [reflexivity | lia]. }
  assert (Hgen : forall df p,
            (2 <= length (spec_points df p))%nat ->
            ols_denominator (spec_points df p) <> 0%Z ->
            (calculate_trend pl_sort df p == ols_slope (spec_points df p))%Q).
  { intros df p. rewrite <- valid_pairs_spec_points. intros Hlen Hd.
    destruct (calculate_trend_cases pl_sort df p Hperm) as (pts' & Hp & ->).
    destruct (Nat.ltb_spec (length (valid_pairs (player_rows df p))) 2);
      [lia|].
    rewrite regression_slope_ols
      by (now rewrite <- (ols_denominator_perm _ _ Hp)).
    symmetry. now apply ols_slope_perm. }
  split; [apply spec_points_elem|].
  split; [apply Hzero|]. split; [|split; [apply Hgen|]].
  - rewrite <- valid_pairs_spec_points. intros Hd.
    destruct (calculate_trend_cases pl_sort seasonal_df pid Hperm)
      as (pts' & Hp & ->).
    destruct (length (valid_pairs (player_rows seasonal_df pid)) <? 2)%nat;
      [reflexivity|].
    apply regression_slope_zero. now rewrite <- (ols_denominator_perm _ _ Hp).
  - split; [reflexivity|]. split; [|split].
    + rewrite Hgen.
      * vm_compute. reflexivity.
      * vm_compute. lia.
      * vm_compute. discriminate.
    + apply Hzero. vm_compute. lia.
    + rewrite Hgen.
      * vm_compute. reflexivity.
      * vm_compute. lia.
      * vm_compute. discriminate.
Qed.

Lemma C7_trend_is_ols_slope_witness :
  sort_permutes stable_sort
  /\ calculate_trend stable_sort old_df "P1" = 0%Q
  /\ calculate_trend stable_sort two_positions_df "P1" = 0%Q
  /\ (calculate_trend stable_sort ascending_df "P1"
      == ols_slope (spec_points ascending_df "P1"))%Q
  /\ (calculate_trend stable_sort trend_example_df "P1" == 2)%Q
  /\ spec_points trend_null_df "P1" = [ (2020%Z, 10%Q) ]
  /\ calculate_trend stable_sort trend_null_df "P1" = 0%Q
  /\ (calculate_trend stable_sort trend_nan_df "P1" == 2)%Q.
Proof.
  split; [exact stable_sort_permutes|].
  split; [|split; [|split; [|split; [|split; [|split]]]]].
  - destruct (C7_trend_is_ols_slope stable_sort old_df "P1"
                stable_sort_permutes) as (_ & Hzero & _).
    apply Hzero. vm_compute. lia.
  - destruct (C7_trend_is_ols_slope stable_sort two_positions_df "P1"
                stable_sort_permutes) as (_ & _ & Hden & _).
    apply Hden. vm_compute. reflexivity.
  - destruct (C7_trend_is_ols_slope stable_sort ascending_df "P1"
                stable_sort_permutes) as (_ & _ & _ & Hslope & _).
    apply Hslope.
    + vm_compute. lia.
    + vm_compute. discriminate.
  - destruct (C7_trend_is_ols_slope stable_sort ascending_df "P1"
                stable_sort_permutes) as (_ & _ & _ & _ & _ & Hex & _).
    exact Hex.
  - reflexivity.
  - destruct (C7_trend_is_ols_slope stable_sort trend_null_df "P1"
                stable_sort_permutes) as (_ & Hzero & _).
    apply Hzero. vm_compute. lia.
  - destruct (C7_trend_is_ols_slope stable_sort trend_nan_df "P1"
                stable_sort_permutes) as (_ & _ & _ & Hslope & _).
    rewrite Hslope.
    + vm_compute. reflexivity.
    + vm_compute. lia.
    + vm_compute. discriminate.
Defined.

(** ** [group_by] and what the eligibility count counts *)

Section group_by_facts.
Context {A K : Type} `{EqDecision K} (key : A -> K).

Lemma group_of_add (k k' : K) (x : A) (gs : list (K * list A)) :
  group_of k' (add_to_group k x gs)
  = if decide (k' = k) then (group_of k gs ++ [x])%list else group_of k' gs.
Proof.
  induction gs as [|[k0 xs] gs IH]; simpl.
  - destruct (decide (k' = k)); reflexivity.
  - destruct (decide (k = k0)) as [->|Hne]; simpl.
    + destruct (decide (k' = k0)); reflexivity.
    + destruct (decide (k' = k0)) as [->|Hne'].
      * rewrite decide_False by congruence. reflexivity.
      * exact IH.
Qed.

Lemma keys_add (k : K) (x : A) (gs : list (K * list A)) :
  map fst (add_to_group k x gs)
  = if decide (k ∈ map fst gs) then map fst gs else (map fst gs ++ [k])%list.
Proof.
  induction gs as [|[k0 xs] gs IH]; simpl.
  - reflexivity.
  - destruct (decide (k = k0)) as [->|Hne]; simpl.
    + rewrite decide_True; [reflexivity|]. now left.
    + rewrite IH. destruct (decide (k ∈ map fst gs)) as [Hin|Hnin].
      * rewrite decide_True; [reflexivity|]. now right.
      * rewrite decide_False; [reflexivity|].
        intros H. apply elem_of_cons in H as [?|?]; contradiction.
Qed.

Lemma group_of_elem (k : K) (xs : list A) (gs : list (K * list A)) :
  NoDup (map fst gs) -> (k, xs) ∈ gs -> group_of k gs = xs.
Proof.
  induction gs as [|[k0 ys] gs IH]; simpl; intros Hnd Hin; [inversion Hin|].
  apply NoDup_cons in Hnd as [Hk0 Hnd].
  apply elem_of_cons in Hin as [Heq | Hin].
  - injection Heq as -> ->. now rewrite decide_True.
  - destruct (decide (k = k0)) as [->|Hne]; [|now apply IH].
    exfalso. apply Hk0.
    apply list_elem_of_fmap. exists (k0, xs). split; [reflexivity | exact Hin].
Qed.

Lemma keys_elem (k : K) (gs : list (K * list A)) :
  k ∈ map fst gs -> (k, group_of k gs) ∈ gs.
Proof.
  induction gs as [|[k0 ys] gs IH]; simpl; intros Hin; [inversion Hin|].
  destruct (decide (k = k0)) as [->|Hne].
  - now left.
  - right. apply IH. apply elem_of_cons in Hin as [?|?]; [contradiction|done].
Qed.

Lemma group_fold (l : list A) (gs : list (K * list A)) :
  NoDup (map fst gs) ->
  NoDup (map fst (foldl (fun gs x => add_to_group (key x) x gs) gs l))
  /\ (forall k, group_of k (foldl (fun gs x => add_to_group (key x) x gs) gs l)
                = (group_of k gs ++ filter (fun x => key x = k) l)%list)
  /\ (forall k, k ∈ map fst (foldl (fun gs x => add_to_group (key x) x gs) gs l)
                <-> k ∈ map fst gs \/ k ∈ map key l).
Proof.
  revert gs. induction l as [|x l IH]; intros gs Hnd; simpl.
  - split; [exact Hnd|]. split.
    + intros k. now rewrite app_nil_r.
    + intros k. split; [now left | intros [H|H]; [exact H | inversion H]].
  - assert (Hnd' : NoDup (map fst (add_to_group (key x) x gs))).
    { rewrite keys_add. destruct (decide (key x ∈ map fst gs)) as [H|H]; [exact Hnd|].
      apply NoDup_app. split; [exact Hnd|]. split.
      - intros k Hk Hk'. apply list_elem_of_singleton in Hk'. now subst.
      - apply NoDup_singleton. }
    destruct (IH _ Hnd') as (Hnd'' & Hgrp & Hkeys).
    split; [exact Hnd''|]. split.
    + intros k. rewrite Hgrp, group_of_add, filter_cons.
      destruct (decide (k = key x)) as [->|Hne].
      * rewrite decide_True by reflexivity. now rewrite <- app_assoc.
      * rewrite decide_False by congruence. reflexivity.
    + intros k. rewrite Hkeys, keys_add.
      destruct (decide (key x ∈ map fst gs)) as [H|H].
      * rewrite elem_of_cons. split; [intros [?|?]; auto | intros [?|[->|?]]; auto].
      * rewrite elem_of_app, list_elem_of_singleton, elem_of_cons.
        split; [intros [[?|?]|?]; auto | intros [?|[?|?]]; auto].
Qed.

Lemma group_by_elem (l : list A) (k : K) (xs : list A) :
  (k, xs) ∈ group_by key l
  <-> k ∈ map key l /\ xs = filter (fun x => key x = k) l.
Proof.
  destruct (group_fold l [] (NoDup_nil_2)) as (Hnd & Hgrp & Hkeys).
  fold (group_by key l) in Hnd, Hgrp, Hkeys.
  assert (Hin_keys : (k, xs) ∈ group_by key l -> k ∈ map fst (group_by key l)).
  { intros Hin. apply list_elem_of_fmap. now exists (k, xs). }
  split.
  - intros Hin. split.
    + apply Hin_keys, Hkeys in Hin as [H|H]; [inversion H | exact H].
    + rewrite <- (group_of_elem k xs _ Hnd Hin). apply Hgrp.
  - intros [Hk ->]. 
    assert (Hk' : k ∈ map fst (group_by key l)) by (apply Hkeys; now right).
    apply keys_elem in Hk'. now rewrite Hgrp in Hk'.
Qed.
End group_by_facts.

Lemma remove_dups_NoDup {A : Type} `{EqDecision A} (l : list A) :
  NoDup l -> remove_dups l = l.
Proof.
  induction 1 as [|x l Hx _ IH]; simpl; [reflexivity|].
  destruct (decide_rel elem_of x l) as [Hin|_]; [contradiction|].
  now rewrite IH.
Qed.

(** What the code's eligibility test counts: the player's summary rows. *)
Lemma eligible_by_seasons_counts_rows (cfg : Config)
    (seasonal_df : list Seasonal.row) (pid : string) :
  pid ∈ eligible_by_seasons cfg seasonal_df
  <-> pid ∈ map Seasonal.player_id seasonal_df
      /\ (default 2%Z (min_seasons_played cfg)
          <= Z.of_nat (length (player_rows seasonal_df pid)))%Z.
Proof.
  unfold eligible_by_seasons, player_season_counts, player_rows.
  rewrite list_elem_of_fmap. split.
  - intros ([k n] & -> & Hin). simpl.
    apply list_elem_of_In, filter_In in Hin as [Hin Htest].
    apply list_elem_of_In, list_elem_of_fmap in Hin as ([k' xs] & Heq & Hgrp).
    simpl in Heq. injection Heq as -> ->.
    apply group_by_elem in Hgrp as [Hk ->].
    split; [exact Hk|]. simpl in Htest. lia.
  - intros [Hk Hcount].
    exists (pid, length (filter (fun r => Seasonal.player_id r = pid) seasonal_df)).
    split; [reflexivity|].
    apply list_elem_of_In, filter_In. split.
    + apply list_elem_of_In, list_elem_of_fmap.
      exists (pid, filter (fun r => Seasonal.player_id r = pid) seasonal_df).
      split; [reflexivity|]. now apply group_by_elem.
    + simpl. lia.
Qed.

(** With no position filter and one summary row per season of the player,
    the code's eligibility is the specification's. *)
Lemma eligible_players_one_row_per_season (cfg : Config)
    (seasonal_df : list Seasonal.row) (pid : string) :
  position_filters cfg = None ->
  NoDup (map Seasonal.season (player_rows seasonal_df pid)) ->
  pid ∈ eligible_players cfg seasonal_df <-> spec_eligible cfg seasonal_df pid.
Proof.
  intros Hnone Hnd. unfold eligible_players, spec_eligible, distinct_seasons.
  rewrite Hnone. simpl.
  rewrite eligible_by_seasons_counts_rows.
  unfold player_rows in *. rewrite (remove_dups_NoDup _ Hnd), length_map.
  reflexivity.
Qed.
(** ** Season predictor: when a prediction is produced *)

Lemma player_rows_idem (seasonal_df : list Seasonal.row) (pid : string) :
  player_rows (player_rows seasonal_df pid) pid = player_rows seasonal_df pid.
Proof.
  unfold player_rows. rewrite list_filter_filter.
  apply list_filter_iff. intros r. tauto.
Qed.

Lemma valid_pairs_nonempty_mean (rows : list Seasonal.row) :
  valid_pairs rows <> [] ->
  pl_mean (map Seasonal.avg_fp_per_game rows) <> None.
Proof.
  intros Hv. unfold pl_mean.
  assert (Hnn : non_null (map Seasonal.avg_fp_per_game rows) <> []).
  { unfold valid_pairs, non_null in *.
    induction rows as [|r rows IH]; simpl in *; [congruence|].
    destruct (Seasonal.avg_fp_per_game r) as [[|q]|]; simpl in *;
      try discriminate.
    exact (IH Hv). }
  destruct (non_null (map Seasonal.avg_fp_per_game rows)); [congruence|].
  discriminate.
Qed.

(** Rounding a non-negative value gives a non-negative value. *)
Lemma py_round_nonneg (q : Q) (ndigits : nat) :
  (0 <= q)%Q -> (0 <= py_round q ndigits)%Q.
Proof.
  intros Hq. unfold py_round.
  set (scale := inject_Z (10 ^ Z.of_nat ndigits)).
  assert (Hscale : (0 < scale)%Q).
  { unfold scale. change 0%Q with (inject_Z 0). rewrite <- Zlt_Qlt.
    apply Z.pow_pos_nonneg; lia. }
  assert (Hfloor : (0 <= Qfloor (q * scale))%Z).
  { change 0%Z with (Qfloor 0). apply Qfloor_resp_le.
    apply Qmult_le_0_compat; [exact Hq | now apply Qlt_le_weak]. }
  assert (Hr : (0 <= round_half_even (q * scale))%Z).
  { unfold round_half_even.
    destruct (q * scale - inject_Z (Qfloor (q * scale)) ?= 1 # 2)%Q;
      [destruct (Z.even _)|..]; lia. }
  apply Qle_shift_div_l; [exact Hscale|].
  rewrite Qmult_0_l. change 0%Q with (inject_Z 0). now rewrite <- Zle_Qle.
Qed.

Lemma seasons_max_spec (rows : list Seasonal.row) :
  rows <> [] ->
  seasons_max rows ∈ map Seasonal.season rows
  /\ forall r, r ∈ rows -> (Seasonal.season r <= seasons_max rows)%Z.
Proof.
  intros Hne. unfold seasons_max.
  destruct rows as [|r0 rows]; [congruence|]. simpl. clear Hne.
  assert (Hgen : forall (ss : list Z) (s : Z),
            foldl Z.max s ss ∈ s :: ss
            /\ forall x, x ∈ s :: ss -> (x <= foldl Z.max s ss)%Z).
  { induction ss as [|y ss IH]; intros s; simpl.
    - split; [now left|]. intros x Hx.
      apply list_elem_of_singleton in Hx. lia.
    - destruct (IH (Z.max s y)) as [Hin Hub]. split.
      + apply elem_of_cons in Hin as [Heq|Hin].
        * rewrite Heq. destruct (Z.max_spec s y) as [[_ ->]|[_ ->]].
          -- right. now left.
          -- now left.
        * right. now right.
      + intros x Hx.
        assert (Hm : (Z.max s y <= foldl Z.max (Z.max s y) ss)%Z)
          by (apply Hub; now left).
        apply elem_of_cons in Hx as [->|Hx]; [lia|].
        apply elem_of_cons in Hx as [->|Hx]; [lia|].
        apply Hub. now right. }
  destruct (Hgen (map Seasonal.season rows) (Seasonal.season r0)) as [Hin Hub].
  split; [exact Hin|].
  intros r Hr. apply Hub.
  change (Seasonal.season r ∈ map Seasonal.season (r0 :: rows)).
  apply list_elem_of_fmap. now exists r.
Qed.

(** The shape of every prediction the season predictor returns. *)
Lemma predict_player_2026_fields
    (pl_sort : forall A : Type, (A -> A -> bool) -> list A -> list A)
    (cfg : Config) (seasonal_df : list Seasonal.row) (pid : string)
    (p : Prediction.row) :
  predict_player_2026 pl_sort cfg seasonal_df pid = Returned (Some p) ->
  recent_data cfg seasonal_df pid <> []
  /\ Prediction.player_id p = pid
  /\ Prediction.seasons_analyzed p = length (recent_data cfg seasonal_df pid)
  /\ Prediction.last_season p = seasons_max (recent_data cfg seasonal_df pid)
  /\ exists raw : Q,
       (0 <= raw)%Q
       /\ Prediction.predicted_avg_fp_per_game p = py_round raw 2
       /\ Prediction.predicted_season_fp p = py_round (raw * 17) 2.
Proof.
  unfold predict_player_2026.
  destruct (player_rows seasonal_df pid) as [|row0 rows0] eqn:Hrows;
    [discriminate|].
  destruct (recent_data cfg seasonal_df pid) as [|r rs] eqn:Hrec;
    [discriminate|].
  destruct (valid_pairs (r :: rs)) as [|v vs] eqn:Hval; [discriminate|].
  destruct (pl_mean (map Seasonal.avg_fp_per_game (r :: rs))) as [m|];
    [|discriminate].
  intros H. injection H as <-. cbn [Prediction.player_id
    Prediction.seasons_analyzed Prediction.last_season
    Prediction.predicted_avg_fp_per_game Prediction.predicted_season_fp].
  split; [discriminate|]. split; [reflexivity|]. split; [reflexivity|].
  split; [reflexivity|].
  match goal with
  | |- context [py_round (if Qle_bool ?x 0 then 0%Q else ?x) 2] =>
      exists (if Qle_bool x 0 then 0%Q else x);
      destruct (Qle_bool x 0) eqn:Hle
  end.
  - split; [lra|]. split; reflexivity.
  - split; [|split; reflexivity].
    apply Qlt_le_weak, Qnot_le_lt. intros Hc.
    apply Qle_bool_iff in Hc. congruence.
Qed.

(** X1.  The season predictor never raises.  It returns a prediction
    exactly when the lookback window holds at least one average that is
    neither null nor NaN, and no result otherwise (unknown player, empty
    window, or only null/NaN averages). *)
Theorem predict_player_2026_result
    (pl_sort : forall A : Type, (A -> A -> bool) -> list A -> list A)
    (cfg : Config) (seasonal_df : list Seasonal.row) (pid : string) :
  (forall e, predict_player_2026 pl_sort cfg seasonal_df pid <> Raised e)
  /\ ((exists p, predict_player_2026 pl_sort cfg seasonal_df pid
                 = Returned (Some p))
      <-> valid_pairs (recent_data cfg seasonal_df pid) <> [])
  /\ (predict_player_2026 pl_sort cfg seasonal_df pid = Returned None
      <-> valid_pairs (recent_data cfg seasonal_df pid) = []).
Proof.
  unfold predict_player_2026.
  destruct (player_rows seasonal_df pid) as [|row0 rows0] eqn:Hrows.
  { assert (Hrec : recent_data cfg seasonal_df pid = [])
      by (unfold recent_data; now rewrite Hrows).
    rewrite Hrec. split; [discriminate|]. split; split; try reflexivity.
    - intros [p Hp]. discriminate Hp.
    - intros H. now destruct H. }
  destruct (recent_data cfg seasonal_df pid) as [|r rs] eqn:Hrec.
  { split; [discriminate|]. split; split; try reflexivity.
    - intros [p Hp]. discriminate Hp.
    - intros H. now destruct H. }
  pose proof (valid_pairs_nonempty_mean (r :: rs)) as Hmean.
  destruct (valid_pairs (r :: rs)) as [|v vs] eqn:Hval.
  { split; [discriminate|]. split; split; try reflexivity.
    - intros [p Hp]. discriminate Hp.
    - intros H. now destruct H. }
  destruct (pl_mean (map Seasonal.avg_fp_per_game (r :: rs))) as [m|].
  - split; [discriminate|]. split; split; try discriminate.
    intros _. eexists. reflexivity.
  - exfalso. now apply Hmean.
Qed.

(** X2.  Every prediction has a non-negative per-game and season value,
    whatever the trend and consistency terms are. *)
Theorem prediction_never_negative
    (pl_sort : forall A : Type, (A -> A -> bool) -> list A -> list A)
    (cfg : Config) (seasonal_df : list Seasonal.row) (pid : string)
    (p : Prediction.row) :
  predict_player_2026 pl_sort cfg seasonal_df pid = Returned (Some p) ->
  (0 <= Prediction.predicted_avg_fp_per_game p)%Q
  /\ (0 <= Prediction.predicted_season_fp p)%Q.
Proof.
  intros Hp.
  destruct (predict_player_2026_fields _ _ _ _ _ Hp)
    as (_ & _ & _ & _ & raw & Hraw & -> & ->).
  split; apply py_round_nonneg; [exact Hraw | lra].
Qed.

(** X3.  A prediction carries the requested player id; it analyses at
    least one season, namely the whole lookback window; and its
    [last_season] is a season of that window, not before
    [target_season - 3], that no season of the window exceeds. *)
Theorem prediction_window_fields
    (pl_sort : forall A : Type, (A -> A -> bool) -> list A -> list A)
    (cfg : Config) (seasonal_df : list Seasonal.row) (pid : string)
    (p : Prediction.row) :
  predict_player_2026 pl_sort cfg seasonal_df pid = Returned (Some p) ->
  Prediction.player_id p = pid
  /\ (1 <= Prediction.seasons_analyzed p)%nat
  /\ Prediction.seasons_analyzed p = length (recent_data cfg seasonal_df pid)
  /\ (exists r, r ∈ seasonal_df /\ Seasonal.player_id r = pid
                /\ Seasonal.season r = Prediction.last_season p)
  /\ (target_season cfg - 3 <= Prediction.last_season p)%Z
  /\ (forall r, r ∈ recent_data cfg seasonal_df pid ->
                (Seasonal.season r <= Prediction.last_season p)%Z).
Proof.
  intros Hp.
  destruct (predict_player_2026_fields _ _ _ _ _ Hp)
    as (Hne & Hid & Hn & Hlast & _).
  destruct (seasons_max_spec _ Hne) as [Hin Hub].
  rewrite <- Hlast in Hin, Hub.
  apply list_elem_of_fmap in Hin as (r & Hr & Hin).
  assert (Hwin := Hin). unfold recent_data, player_rows in Hwin.
  apply list_elem_of_filter in Hwin as [Hseason Hwin].
  apply list_elem_of_filter in Hwin as [Hpid Hdf].
  split; [exact Hid|]. split.
  { rewrite Hn. destruct (recent_data cfg seasonal_df pid);
      [congruence | simpl; lia]. }
  split; [exact Hn|]. split; [|split].
  - exists r. split; [exact Hdf|]. split; [exact Hpid | now symmetry].
  - rewrite Hr. exact Hseason.
  - exact Hub.
Qed.

(** X4.  A player's prediction depends on that player's rows only: two
    seasonal frames that agree on the rows of the player give the same
    result, so the rows of other players never influence it. *)
Theorem prediction_uses_own_rows_only
    (pl_sort : forall A : Type, (A -> A -> bool) -> list A -> list A)
    (cfg : Config) (df df' : list Seasonal.row) (pid : string) :
  player_rows df pid = player_rows df' pid ->
  predict_player_2026 pl_sort cfg df pid
  = predict_player_2026 pl_sort cfg df' pid.
Proof.
  intros Hrows.
  unfold predict_player_2026, recent_data, calculate_trend.
  rewrite Hrows. reflexivity.
Qed.

Lemma prediction_uses_own_rows_only_witness :
  player_rows tie_df "P1" = player_rows (player_rows tie_df "P1") "P1"
  /\ predict_player_2026 stable_sort cfg_2026 tie_df "P1"
     = predict_player_2026 stable_sort cfg_2026 (player_rows tie_df "P1") "P1".
Proof.
  split; [reflexivity|].
  apply (prediction_uses_own_rows_only stable_sort cfg_2026 tie_df
           (player_rows tie_df "P1") "P1").
  reflexivity.
Defined.

(** ** Season predictor: the weighted average is a weighted mean *)






(** ** Trend estimator: degenerate and exact inputs *)

Lemma calculate_trend_ols
    (pl_sort : forall A : Type, (A -> A -> bool) -> list A -> list A)
    (seasonal_df : list Seasonal.row) (pid : string) :
  sort_permutes pl_sort ->
  (calculate_trend pl_sort seasonal_df pid = 0%Q
   /\ ((length (valid_pairs (player_rows seasonal_df pid)) < 2)%nat
       \/ ols_denominator (valid_pairs (player_rows seasonal_df pid)) = 0%Z))
  \/ ((calculate_trend pl_sort seasonal_df pid
       == ols_slope (valid_pairs (player_rows seasonal_df pid)))%Q
      /\ (2 <= length (valid_pairs (player_rows seasonal_df pid)))%nat
      /\ ols_denominator (valid_pairs (player_rows seasonal_df pid)) <> 0%Z).
Proof.
  intros Hperm.
  destruct (calculate_trend_cases pl_sort seasonal_df pid Hperm)
    as (pts' & Hp & ->).
  destruct (Nat.ltb_spec
              (length (valid_pairs (player_rows seasonal_df pid))) 2)
    as [Hlt|Hge]; [left; split; [reflexivity | now left]|].
  destruct (Z.eq_dec
              (ols_denominator (valid_pairs (player_rows seasonal_df pid)))
              0%Z) as [Hd|Hd].
  - left. split; [|now right].
    apply regression_slope_zero. now rewrite <- (ols_denominator_perm _ _ Hp).
  - right. split; [|split; [exact Hge | exact Hd]].
    rewrite regression_slope_ols
      by (now rewrite <- (ols_denominator_perm _ _ Hp)).
    symmetry. now apply ols_slope_perm.
Qed.

Lemma sigmaZ_same_season (pts : list (Z * Q)) (s : Z) :
  Forall (fun p => fst p = s) pts ->
  sigmaZ (map fst pts) = (Z.of_nat (length pts) * s)%Z
  /\ sigmaZ (map (fun p => fst p * fst p)%Z pts)
     = (Z.of_nat (length pts) * (s * s))%Z.
Proof.
  induction 1 as [|p pts Hp _ [IH1 IH2]]; [split; reflexivity|].
  cbn [map sigmaZ fold_right length].
  fold (sigmaZ (map fst pts)).
  fold (sigmaZ (map (fun p => fst p * fst p)%Z pts)).
  rewrite IH1, IH2, Hp. split; lia.
Qed.

(** X6.  When all of a player's valid averages belong to one season (in
    particular when there is a single one), the trend is exactly 0. *)
Theorem trend_zero_for_one_season
    (pl_sort : forall A : Type, (A -> A -> bool) -> list A -> list A)
    (seasonal_df : list Seasonal.row) (pid : string) (s : Z) :
  sort_permutes pl_sort ->
  Forall (fun p => fst p = s) (valid_pairs (player_rows seasonal_df pid)) ->
  calculate_trend pl_sort seasonal_df pid = 0%Q.
Proof.
  intros Hperm Hsame.
  assert (Hd : ols_denominator (valid_pairs (player_rows seasonal_df pid))
               = 0%Z).
  { unfold ols_denominator.
    destruct (sigmaZ_same_season _ s Hsame) as [-> ->]. lia. }
  destruct (calculate_trend_ols pl_sort seasonal_df pid Hperm)
    as [[H0 _] | (_ & _ & Hne)]; [exact H0 | contradiction].
Qed.

Lemma trend_zero_for_one_season_witness :
  sort_permutes stable_sort
  /\ Forall (fun p => fst p = 2025%Z)
            (valid_pairs (player_rows two_positions_df "P1"))
  /\ calculate_trend stable_sort two_positions_df "P1" = 0%Q.
Proof.
  assert (H : Forall (fun p => fst p = 2025%Z)
                (valid_pairs (player_rows two_positions_df "P1"))).
  { repeat constructor. }
  split; [exact stable_sort_permutes|]. split; [exact H|].
  exact (trend_zero_for_one_season stable_sort two_positions_df "P1" 2025
           stable_sort_permutes H).
Defined.

Lemma sigma_on_line (a b : Q) (pts : list (Z * Q)) :
  Forall (fun p => (snd p == a + b * inject_Z (fst p))%Q) pts ->
  (sigmaQ (map snd pts)
   == inject_Z (Z.of_nat (length pts)) * a
      + b * inject_Z (sigmaZ (map fst pts)))%Q
  /\ (sigmaQ (map (fun p => inject_Z (fst p) * snd p) pts)
      == a * inject_Z (sigmaZ (map fst pts))
         + b * inject_Z (sigmaZ (map (fun p => fst p * fst p)%Z pts)))%Q.
Proof.
  induction 1 as [|p pts Hp _ [IH1 IH2]].
  - simpl. split; ring.
  - cbn [map sigmaQ sigmaZ fold_right length].
    fold (sigmaQ (map snd pts)).
    fold (sigmaQ (map (fun p => inject_Z (fst p) * snd p)%Q pts)).
    fold (sigmaZ (map fst pts)).
    fold (sigmaZ (map (fun p => fst p * fst p)%Z pts)).
    rewrite IH1, IH2, Hp, Nat2Z.inj_succ. unfold Z.succ.
    rewrite !inject_Z_plus, !inject_Z_mult. split; ring.
Qed.

(** X7.  When a player's valid averages lie exactly on a line
    [avg = a + b * season] and span at least two different seasons (the
    denominator is not zero), the trend is the slope [b] of that line. *)
Theorem trend_recovers_exact_line
    (pl_sort : forall A : Type, (A -> A -> bool) -> list A -> list A)
    (seasonal_df : list Seasonal.row) (pid : string) (a b : Q) :
  sort_permutes pl_sort ->
  Forall (fun p => (snd p == a + b * inject_Z (fst p))%Q)
         (valid_pairs (player_rows seasonal_df pid)) ->
  ols_denominator (valid_pairs (player_rows seasonal_df pid)) <> 0%Z ->
  (calculate_trend pl_sort seasonal_df pid == b)%Q.
Proof.
  intros Hperm Hline Hd.
  destruct (calculate_trend_ols pl_sort seasonal_df pid Hperm)
    as [[_ [Hlt | H0]] | (-> & _ & _)]; [| contradiction |].
  - exfalso. apply Hd. unfold ols_denominator.
    destruct (valid_pairs (player_rows seasonal_df pid)) as [|p [|p' l]];
      simpl in *; lia.
  - set (pts := valid_pairs (player_rows seasonal_df pid)) in *.
    destruct (sigma_on_line a b pts Hline) as [Hy Hxy].
    unfold ols_slope. rewrite Hy, Hxy.
    assert (HdQ : ~ (inject_Z (ols_denominator pts) == 0)%Q).
    { change 0%Q with (inject_Z 0). rewrite inject_Z_injective. exact Hd. }
    unfold ols_denominator in *.
    rewrite <- Z.add_opp_r, inject_Z_plus, inject_Z_opp, !inject_Z_mult in *.
    field. exact HdQ.
Qed.

Lemma trend_recovers_exact_line_witness :
  sort_permutes stable_sort
  /\ Forall (fun p => (snd p == -4036 + 2 * inject_Z (fst p))%Q)
            (valid_pairs (player_rows ascending_df "P1"))
  /\ ols_denominator (valid_pairs (player_rows ascending_df "P1")) <> 0%Z
  /\ (calculate_trend stable_sort ascending_df "P1" == 2)%Q.
Proof.
  assert (H : Forall (fun p => (snd p == -4036 + 2 * inject_Z (fst p))%Q)
                (valid_pairs (player_rows ascending_df "P1"))).
  { repeat constructor. }
  assert (Hd : ols_denominator (valid_pairs (player_rows ascending_df "P1"))
               <> 0%Z) by (vm_compute; discriminate).
  split; [exact stable_sort_permutes|]. split; [exact H|]. split; [exact Hd|].
  exact (trend_recovers_exact_line stable_sort ascending_df "P1" (-4036) 2
           stable_sort_permutes H Hd).
Defined.

(** ** Orchestrator: the eligible set *)

Lemma filter_fmap_sublist {A B : Type} (h : A -> B) (f : A -> bool)
    (l : list A) :
  map h (List.filter f l) `sublist_of` map h l.
Proof.
  induction l as [|x l IH]; simpl; [constructor|].
  destruct (f x); simpl; [now apply sublist_skip | now apply sublist_cons].
Qed.

Lemma eligible_by_seasons_NoDup (cfg : Config)
    (seasonal_df : list Seasonal.row) :
  NoDup (eligible_by_seasons cfg seasonal_df).
Proof.
  unfold eligible_by_seasons, player_season_counts.
  eapply sublist_NoDup; [|apply filter_fmap_sublist].
  rewrite map_map. simpl.
  destruct (group_fold Seasonal.player_id seasonal_df [] (NoDup_nil_2))
    as (Hnd & _ & _).
  exact Hnd.
Qed.

Lemma position_allowed_spec (filters : list (string * bool))
    (pos : option string) :
  position_allowed (map fst (List.filter snd filters)) pos = true
  <-> exists p, pos = Some p /\ (p, true) ∈ filters.
Proof.
  unfold position_allowed. destruct pos as [p|].
  - rewrite bool_decide_eq_true, list_elem_of_fmap. split.
    + intros ([p' b] & -> & Hin).
      apply list_elem_of_In, filter_In in Hin as [Hin Hb].
      simpl in Hb. subst b. exists p'. split; [reflexivity|].
      now apply list_elem_of_In.
    + intros (p' & Heq & Hin). injection Heq as ->.
      exists (p', true). split; [reflexivity|].
      apply list_elem_of_In, filter_In. split; [|reflexivity].
      now apply list_elem_of_In.
  - split; [discriminate|]. intros (p & Hp & _). discriminate Hp.
Qed.

(** The eligible set, characterised. *)
Lemma eligible_players_char (cfg : Config)
    (seasonal_df : list Seasonal.row) (pid : string) :
  NoDup (eligible_players cfg seasonal_df)
  /\ (pid ∈ eligible_players cfg seasonal_df
      <-> pid ∈ map Seasonal.player_id seasonal_df
          /\ (default 2%Z (min_seasons_played cfg)
              <= Z.of_nat (length (player_rows seasonal_df pid)))%Z
          /\ (existsb snd (default [] (position_filters cfg)) = true ->
              exists r pos,
                r ∈ seasonal_df /\ Seasonal.player_id r = pid
                /\ Seasonal.position r = Some pos
                /\ (pos, true) ∈ default [] (position_filters cfg))).
Proof.
  pose proof (eligible_by_seasons_counts_rows cfg seasonal_df pid) as Hc.
  unfold eligible_players.
  destruct (existsb snd (default [] (position_filters cfg))) eqn:Hany.
  - split; [apply NoDup_remove_dups|].
    rewrite elem_of_remove_dups, list_elem_of_fmap. split.
    + intros (r & -> & Hr).
      apply list_elem_of_In, filter_In in Hr as [Hr Htest].
      apply andb_true_iff in Htest as [Hel Hpos].
      apply bool_decide_eq_true in Hel.
      apply position_allowed_spec in Hpos as (pos & Hpos & Hin).
      apply Hc in Hel as [H1 H2].
      split; [exact H1|]. split; [exact H2|]. intros _. exists r, pos.
      split; [now apply list_elem_of_In|]. now split.
    + intros (H1 & H2 & Hpos).
      destruct (Hpos eq_refl) as (r & pos & Hr & Hid & Hp & Hin).
      exists r. split; [now symmetry|].
      apply list_elem_of_In, filter_In. split; [now apply list_elem_of_In|].
      apply andb_true_iff. split.
      * apply bool_decide_eq_true. rewrite Hid. apply Hc. now split.
      * apply position_allowed_spec. now exists pos.
  - split; [apply eligible_by_seasons_NoDup|].
    rewrite Hc. split.
    + intros [H1 H2]. split; [exact H1|]. split; [exact H2 | discriminate].
    + intros (H1 & H2 & _). now split.
Qed.

(** X8.  The eligible players are listed once each.  A player is eligible
    exactly when it has at least [min_seasons_played] (default 2) summary
    rows and, if some position filter is enabled, one of its rows has an
    enabled position; filters that are all disabled restrict nothing. *)
Theorem eligible_players_spec (cfg : Config)
    (seasonal_df : list Seasonal.row) (pid : string) :
  NoDup (eligible_players cfg seasonal_df)
  /\ (pid ∈ eligible_players cfg seasonal_df
      <-> pid ∈ map Seasonal.player_id seasonal_df
          /\ (default 2%Z (min_seasons_played cfg)
              <= Z.of_nat (length (player_rows seasonal_df pid)))%Z
          /\ (existsb snd (default [] (position_filters cfg)) = true ->
              exists r pos,
                r ∈ seasonal_df /\ Seasonal.player_id r = pid
                /\ Seasonal.position r = Some pos
                /\ (pos, true) ∈ default [] (position_filters cfg))).
Proof. apply eligible_players_char. Qed.

Lemma eligible_players_spec_witness :
  existsb snd (default [] (position_filters
                             (cfg_positions [("RB", false); ("WR", true)])))
  = true
  /\ eligible_players (cfg_positions [("RB", false); ("WR", true)]) tie_df
     = ["P2"]
  /\ exists r pos,
       r ∈ tie_df /\ Seasonal.player_id r = "P2"
       /\ Seasonal.position r = Some pos
       /\ (pos, true) ∈ [("RB", false); ("WR", true)].
Proof.
  split; [reflexivity|]. split; [reflexivity|].
  destruct (eligible_players_spec
              (cfg_positions [("RB", false); ("WR", true)]) tie_df "P2")
    as [_ [Hspec _]].
  destruct (Hspec ltac:(vm_compute; apply elem_of_cons; now left))
    as (_ & _ & Hpos).
  exact (Hpos eq_refl).
Defined.

(** X9.  Raising [min_seasons_played] never adds a player: with the same
    position filters, every player eligible under the larger minimum is
    eligible under the smaller one. *)
Theorem eligible_players_antitone (cfg cfg' : Config)
    (seasonal_df : list Seasonal.row) (pid : string) :
  position_filters cfg = position_filters cfg' ->
  (default 2%Z (min_seasons_played cfg)
   <= default 2%Z (min_seasons_played cfg'))%Z ->
  pid ∈ eligible_players cfg' seasonal_df ->
  pid ∈ eligible_players cfg seasonal_df.
Proof.
  intros Hf Hmin Hin.
  apply eligible_players_char in Hin as (Hid & Hcount & Hpos).
  apply eligible_players_char. split; [exact Hid|]. split; [lia|].
  now rewrite Hf.
Qed.

Lemma eligible_players_antitone_witness :
  position_filters (cfg_min 2) = position_filters (cfg_min 3)
  /\ (default 2%Z (min_seasons_played (cfg_min 2))
      <= default 2%Z (min_seasons_played (cfg_min 3)))%Z
  /\ "P1" ∈ eligible_players (cfg_min 3) ascending_df
  /\ "P1" ∈ eligible_players (cfg_min 2) ascending_df.
Proof.
  assert (H3 : "P1" ∈ eligible_players (cfg_min 3) ascending_df).
  { vm_compute. apply elem_of_cons. now left. }
  split; [reflexivity|]. split; [simpl; lia|]. split; [exact H3|].
  apply (eligible_players_antitone (cfg_min 2) (cfg_min 3) ascending_df "P1");
    [reflexivity | simpl; lia | exact H3].
Defined.

(** X10.  When no player has [min_seasons_played] summary rows, the run
    raises the "No predictions generated" error, whatever the predictor
    would return. *)
Theorem too_few_seasons_raises
    (pl_sort : forall A : Type, (A -> A -> bool) -> list A -> list A)
    (predict : list Seasonal.row -> string -> outcome (option Prediction.row))
    (cfg : Config) (seasonal_df : list Seasonal.row) :
  (forall pid,
     (Z.of_nat (length (player_rows seasonal_df pid))
      < default 2%Z (min_seasons_played cfg))%Z) ->
  predict_all_players_with pl_sort predict cfg seasonal_df
  = Raised (ValueError "No predictions generated. Check data and filters.").
Proof.
  intros Hfew. unfold predict_all_players_with.
  assert (Hnil : eligible_players cfg seasonal_df = []).
  { destruct (eligible_players cfg seasonal_df) as [|pid l] eqn:He;
      [reflexivity|].
    assert (Hin : pid ∈ eligible_players cfg seasonal_df)
      by (rewrite He; now left).
    apply eligible_players_char in Hin as (_ & Hcount & _).
    specialize (Hfew pid). lia. }
  rewrite Hnil. reflexivity.
Qed.

Lemma too_few_seasons_raises_witness :
  (forall pid,
     (Z.of_nat (length (player_rows ascending_df pid))
      < default 2%Z (min_seasons_played (cfg_min 5)))%Z)
  /\ predict_all_players_with stable_sort
       (predict_player_2026 stable_sort (cfg_min 5)) (cfg_min 5) ascending_df
     = Raised (ValueError "No predictions generated. Check data and filters.").
Proof.
  assert (H : forall pid,
            (Z.of_nat (length (player_rows ascending_df pid))
             < default 2%Z (min_seasons_played (cfg_min 5)))%Z).
  { intros pid. unfold player_rows.
    pose proof (length_filter (fun r => Seasonal.player_id r = pid)
                              ascending_df) as Hlen.
    simpl in *. lia. }
  split; [exact H|].
  exact (too_few_seasons_raises stable_sort
           (predict_player_2026 stable_sort (cfg_min 5)) (cfg_min 5)
           ascending_df H).
Defined.

Lemma prediction_never_negative_witness :
  exists p,
    predict_player_2026 stable_sort cfg_2026 declining_df "P1"
    = Returned (Some p)
    /\ (0 <= Prediction.predicted_avg_fp_per_game p)%Q
    /\ (0 <= Prediction.predicted_season_fp p)%Q.
Proof.
  eexists. split; [vm_compute; reflexivity|].
  apply (prediction_never_negative stable_sort cfg_2026 declining_df "P1").
  vm_compute. reflexivity.
Defined.

Lemma prediction_window_fields_witness :
  exists p,
    predict_player_2026 stable_sort cfg_2026 ascending_df "P1"
    = Returned (Some p)
    /\ Prediction.player_id p = "P1"
    /\ (1 <= Prediction.seasons_analyzed p)%nat.
Proof.
  eexists. split; [vm_compute; reflexivity|].
  match goal with
  | |- Prediction.player_id ?p = _ /\ _ =>
      destruct (prediction_window_fields stable_sort cfg_2026 ascending_df
                  "P1" p ltac:(vm_compute; reflexivity))
        as (Hid & Hn & _)
  end.
  split; [exact Hid | exact Hn].
Defined.

(** ** Orchestrator: the rows of the output *)

Lemma collect_ids_sublist
    (pl_sort : forall A : Type, (A -> A -> bool) -> list A -> list A)
    (cfg : Config) (seasonal_df : list Seasonal.row) (players : list string) :
  map Prediction.player_id
      (collect_predictions (predict_player_2026 pl_sort cfg) seasonal_df
                           players)
  `sublist_of` players.
Proof.
  induction players as [|pid rest IH]; [constructor|].
  cbn [collect_predictions].
  destruct (predict_player_2026 pl_sort cfg seasonal_df pid)
    as [[p|]|e] eqn:Hp; try (now apply sublist_cons).
  destruct (predict_player_2026_fields _ _ _ _ _ Hp) as (_ & Hid & _).
  cbn [map]. rewrite Hid. now apply sublist_skip.
Qed.

(** X11.  In a successful run every output row is the season predictor's
    result for an eligible player, and no player appears twice. *)
Theorem output_one_row_per_eligible_player
    (pl_sort : forall A : Type, (A -> A -> bool) -> list A -> list A)
    (cfg : Config) (seasonal_df : list Seasonal.row)
    (out : list Prediction.row) :
  sort_permutes pl_sort ->
  predict_all_players_with pl_sort (predict_player_2026 pl_sort cfg) cfg
                           seasonal_df = Returned out ->
  NoDup (map Prediction.player_id out)
  /\ forall p, p ∈ out ->
       Prediction.player_id p ∈ eligible_players cfg seasonal_df
       /\ predict_player_2026 pl_sort cfg seasonal_df (Prediction.player_id p)
          = Returned (Some p).
Proof.
  intros Hperm Hrun. unfold predict_all_players_with in Hrun.
  set (preds := collect_predictions (predict_player_2026 pl_sort cfg)
                  seasonal_df (eligible_players cfg seasonal_df)) in *.
  assert (Hout : Permutation preds out).
  { destruct preds as [|p ps]; [discriminate Hrun|].
    injection Hrun as <-. apply Hperm. }
  split.
  - rewrite <- Hout. eapply sublist_NoDup; [|apply collect_ids_sublist].
    apply (eligible_players_char cfg seasonal_df "").
  - intros p Hp. rewrite <- Hout in Hp. unfold preds in Hp.
    rewrite collect_predictions_spec in Hp.
    apply list_elem_of_omap in Hp as (pid & Hpid & Hres).
    destruct (predict_player_2026 pl_sort cfg seasonal_df pid)
      as [[q|]|e] eqn:Hq; try discriminate Hres.
    injection Hres as ->.
    destruct (predict_player_2026_fields _ _ _ _ _ Hq) as (_ & Hid & _).
    rewrite Hid. split; [exact Hpid | exact Hq].
Qed.

Lemma output_one_row_per_eligible_player_witness :
  sort_permutes stable_sort
  /\ exists out,
       predict_all_players_with stable_sort
         (predict_player_2026 stable_sort cfg_2026) cfg_2026 tie_df
       = Returned out
       /\ NoDup (map Prediction.player_id out).
Proof.
  split; [exact stable_sort_permutes|].
  eexists. split; [vm_compute; reflexivity|].
  apply (output_one_row_per_eligible_player stable_sort cfg_2026 tie_df).
  - exact stable_sort_permutes.
  - vm_compute. reflexivity.
Defined.

(** ** Top players *)

Lemma pl_head_prefix {A : Type} (n : Z) (l : list A) :
  exists k, pl_head n l = take k l
            /\ ((0 <= n)%Z -> k = Z.to_nat n).
Proof.
  unfold pl_head. destruct (Z.leb_spec 0 n).
  - exists (Z.to_nat n). split; [reflexivity | reflexivity].
  - eexists. split; [reflexivity | lia].
Qed.

(** The rows [get_top_players] returns. *)
Lemma get_top_players_char (top_n_players : option Z)
    (predictions_df : list Prediction.row) (n : option Z) :
  let count := match n with
               | None => default 50%Z top_n_players
               | Some m => m
               end in
  exists rest,
    predictions_df
    = (get_top_players top_n_players predictions_df n ++ rest)%list
    /\ ((0 <= count)%Z ->
        length (get_top_players top_n_players predictions_df n)
        = Nat.min (Z.to_nat count) (length predictions_df))
    /\ (StronglySorted fp_descending predictions_df ->
        StronglySorted fp_descending
          (get_top_players top_n_players predictions_df n)
        /\ forall kept dropped,
             kept ∈ get_top_players top_n_players predictions_df n ->
             dropped ∈ rest -> fp_descending kept dropped).
Proof.
  intros count. unfold get_top_players. fold count.
  destruct (pl_head_prefix count predictions_df) as (k & -> & Hk).
  exists (drop k predictions_df). split; [now rewrite take_drop|]. split.
  - intros Hpos. rewrite (Hk Hpos). apply length_take.
  - intros Hsorted. rewrite <- (take_drop k predictions_df) in Hsorted.
    apply StronglySorted_app in Hsorted as (Hcross & Htake & _).
    split; [exact Htake|]. intros kept dropped. apply Hcross.
Qed.

(** X12.  [get_top_players] returns a leading part of the predictions: for
    a count [n >= 0] (the configured [top_n_players], default 50, when no
    count is given) the first [min n len] rows.  When the predictions are
    sorted by [predicted_season_fp] descending, so is the result, and no
    row left out has a larger [predicted_season_fp] than a row kept. *)
Theorem get_top_players_spec (top_n_players : option Z)
    (predictions_df : list Prediction.row) (n : option Z) :
  let count := match n with
               | None => default 50%Z top_n_players
               | Some m => m
               end in
  exists rest,
    predictions_df
    = (get_top_players top_n_players predictions_df n ++ rest)%list
    /\ ((0 <= count)%Z ->
        length (get_top_players top_n_players predictions_df n)
        = Nat.min (Z.to_nat count) (length predictions_df))
    /\ (StronglySorted fp_descending predictions_df ->
        StronglySorted fp_descending
          (get_top_players top_n_players predictions_df n)
        /\ forall kept dropped,
             kept ∈ get_top_players top_n_players predictions_df n ->
             dropped ∈ rest -> fp_descending kept dropped).
Proof. apply get_top_players_char. Qed.

Lemma ranked_predictions_sorted :
  StronglySorted fp_descending ranked_predictions.
Proof.
  let l := eval vm_compute in ranked_predictions in
  assert (E : ranked_predictions = l) by (vm_compute; reflexivity).
  rewrite E. repeat constructor. vm_compute. discriminate.
Qed.

Lemma get_top_players_spec_witness :
  (0 <= 1)%Z
  /\ StronglySorted fp_descending ranked_predictions
  /\ map Prediction.player_id ranked_predictions = ["P2"; "P1"]
  /\ length (get_top_players None ranked_predictions (Some 1%Z)) = 1%nat
  /\ StronglySorted fp_descending
       (get_top_players None ranked_predictions (Some 1%Z)).
Proof.
  pose proof ranked_predictions_sorted as Hs.
  destruct (get_top_players_spec None ranked_predictions (Some 1%Z))
    as (rest & _ & Hlen & Hsorted).
  split; [lia|]. split; [exact Hs|]. split; [reflexivity|]. split.
  - rewrite Hlen by lia. reflexivity.
  - exact (proj1 (Hsorted Hs)).
Defined.

(** ** Seasonal aggregator: the rows of the seasonal frame *)

Lemma groups_total_length {A K : Type} `{EqDecision K} (key : A -> K)
    (l : list A) (gs : list (K * list A)) :
  sum_list (map (fun g => length (snd g))
              (foldl (fun gs x => add_to_group (key x) x gs) gs l))
  = (sum_list (map (fun g => length (snd g)) gs) + length l)%nat.
Proof.
  revert gs. induction l as [|x l IH]; intros gs; simpl; [lia|].
  rewrite IH.
  assert (Hadd : sum_list (map (fun g => length (snd g))
                             (add_to_group (key x) x gs))
                 = S (sum_list (map (fun g => length (snd g)) gs))).
  { clear IH. induction gs as [|[k xs] gs IHgs]; simpl; [reflexivity|].
    destruct (decide (key x = k)); simpl.
    - rewrite length_app. simpl. lia.
    - rewrite IHgs. lia. }
  rewrite Hadd. lia.
Qed.

Lemma aggregate_group_key sqrt_fn key rows :
  seasonal_key (aggregate_group sqrt_fn key rows) = key
  /\ Seasonal.games_played (aggregate_group sqrt_fn key rows) = length rows.
Proof. destruct key as [[[pid name] yr] pos]. split; reflexivity. Qed.

(** X13.  The seasonal frame has exactly one row for each combination of
    player id, name, season and position that occurs in the game rows.
    Its [games_played] is the number of game rows with that combination,
    at least 1, and over the whole frame these numbers add up to the number
    of game rows: every game is counted in exactly one summary. *)
Theorem seasonal_rows_partition_games (sqrt_fn : Q -> Q)
    (df : list Game.row) :
  NoDup (map seasonal_key (get_player_seasonal_stats sqrt_fn df))
  /\ (forall key,
        key ∈ map seasonal_key (get_player_seasonal_stats sqrt_fn df)
        <-> key ∈ map game_key df)
  /\ (forall r,
        r ∈ get_player_seasonal_stats sqrt_fn df ->
        Seasonal.games_played r
        = length (filter (fun g => game_key g = seasonal_key r) df)
        /\ (1 <= Seasonal.games_played r)%nat)
  /\ sum_list (map Seasonal.games_played
                 (get_player_seasonal_stats sqrt_fn df))
     = length df.
Proof.
  unfold get_player_seasonal_stats. fold game_key.
  destruct (group_fold game_key df [] (NoDup_nil_2)) as (Hnd & _ & Hkeys).
  fold (group_by game_key df) in Hnd, Hkeys.
  assert (Hmap : map seasonal_key
                   (map (fun g => aggregate_group sqrt_fn (fst g) (snd g))
                        (group_by game_key df))
                 = map fst (group_by game_key df)).
  { rewrite map_map. apply map_ext. intros [k rows].
    apply aggregate_group_key. }
  split; [now rewrite Hmap|]. split; [|split].
  - intros key. rewrite Hmap, Hkeys. split; [|now right].
    intros [H|H]; [inversion H | exact H].
  - intros r Hr. apply list_elem_of_fmap in Hr as ([k rows] & -> & Hg).
    cbn [fst snd].
    destruct (aggregate_group_key sqrt_fn k rows) as [-> ->].
    apply group_by_elem in Hg as [Hk ->]. split; [reflexivity|].
    apply list_elem_of_fmap in Hk as (g & Hkg & Hg).
    assert (Hin : g ∈ filter (fun g => game_key g = k) df)
      by (apply list_elem_of_filter; split; [now symmetry | exact Hg]).
    destruct (filter (fun g => game_key g = k) df);
      [inversion Hin | simpl; lia].
  - rewrite map_map.
    rewrite (map_ext _ (fun g => length (snd g))).
    + unfold group_by. rewrite groups_total_length. reflexivity.
    + intros [k rows]. apply aggregate_group_key.
Qed.

Lemma fsum_finite (qs : list Q) (a : Q) :
  foldl fadd (fin a) (map fin qs) = fin (foldl Qplus a qs).
Proof.
  revert a. induction qs as [|q qs IH]; intros a; simpl; [reflexivity|].
  apply IH.
Qed.

Lemma finite_points (rows : list Game.row) :
  Forall (fun g => exists x, Game.fantasy_points g = Some (fin x)) rows ->
  exists qs, length qs = length rows
             /\ non_null (map Game.fantasy_points rows) = map fin qs.
Proof.
  induction 1 as [|g rows [x Hx] _ (qs & Hlen & IH)].
  - exists []. split; reflexivity.
  - exists (x :: qs). split; [simpl; now rewrite Hlen|].
    unfold non_null in *. cbn [map]. rewrite Hx.
    change (omap id (Some (fin x) :: map Game.fantasy_points rows))
      with (fin x :: omap id (map Game.fantasy_points rows)).
    now rewrite IH.
Qed.

(** X14.  When every game of a group has a (finite) point value, the
    season total is the per-game average times the number of games. *)
Theorem total_is_average_times_games (sqrt_fn : Q -> Q)
    (key : string * string * Z * option string) (rows : list Game.row) :
  rows <> [] ->
  Forall (fun g => exists x, Game.fantasy_points g = Some (fin x)) rows ->
  exists total avg,
    Seasonal.total_fp (aggregate_group sqrt_fn key rows) = Some (fin total)
    /\ Seasonal.avg_fp_per_game (aggregate_group sqrt_fn key rows)
       = Some (fin avg)
    /\ (total
        == avg * inject_Z (Z.of_nat
                   (Seasonal.games_played (aggregate_group sqrt_fn key rows))))%Q.
Proof.
  intros Hne Hall. destruct key as [[[pid name] yr] pos]. simpl.
  destruct (finite_points rows Hall) as (qs & Hlen & Hnn).
  unfold pl_sum, pl_mean. rewrite Hnn.
  destruct qs as [|q qs]; [destruct rows; [congruence | discriminate Hlen]|].
  cbn [map]. change (fin q :: map fin qs) with (map fin (q :: qs)).
  unfold fsum. rewrite !fsum_finite, length_map, Hlen. cbn [fdiv_nat].
  eexists. eexists. split; [reflexivity|]. split; [reflexivity|].
  field. change 0%Q with (inject_Z 0). rewrite inject_Z_injective.
  destruct rows; [congruence | simpl; lia].
Qed.

Lemma total_is_average_times_games_witness :
  [game 10; game 14] <> []
  /\ Forall (fun g => exists x, Game.fantasy_points g = Some (fin x))
            [game 10; game 14]
  /\ exists total avg,
       Seasonal.total_fp (aggregate_group sqrt_floor group_key
                            [game 10; game 14]) = Some (fin total)
       /\ Seasonal.avg_fp_per_game
            (aggregate_group sqrt_floor group_key [game 10; game 14])
          = Some (fin avg)
       /\ (total == avg * inject_Z 2)%Q.
Proof.
  assert (H : Forall (fun g => exists x, Game.fantasy_points g = Some (fin x))
                [game 10; game 14]).
  { repeat constructor; eexists; reflexivity. }
  split; [discriminate|]. split; [exact H|].
  exact (total_is_average_times_games sqrt_floor group_key [game 10; game 14]
           ltac:(discriminate) H).
Defined.

(** X15.  A group's average is null exactly when every game of the group
    has null points; the season predictor then discards that season. *)
Theorem average_null_iff_all_null (sqrt_fn : Q -> Q)
    (key : string * string * Z * option string) (rows : list Game.row) :
  (Seasonal.avg_fp_per_game (aggregate_group sqrt_fn key rows) = None
   <-> Forall (fun g => Game.fantasy_points g = None) rows)
  /\ (Seasonal.avg_fp_per_game (aggregate_group sqrt_fn key rows) = None ->
      valid_pairs [aggregate_group sqrt_fn key rows] = []).
Proof.
  destruct key as [[[pid name] yr] pos]. simpl. split.
  - unfold pl_mean, non_null. split.
    + intros Hnone. induction rows as [|g rows IH]; [constructor|].
      simpl in Hnone.
      destruct (Game.fantasy_points g) as [x|] eqn:Hg; simpl in Hnone;
        [discriminate Hnone|].
      constructor; [exact Hg | exact (IH Hnone)].
    + induction 1 as [|g rows Hg _ IH]; [reflexivity|].
      simpl. rewrite Hg. simpl. exact IH.
  - intros Hnone. unfold valid_pairs. simpl. now rewrite Hnone.
Qed.

(** ** Scoring engine: the frame it returns *)

Lemma step_outputs_none scoring df steps st :
  st ∈ steps -> category_column scoring df (fst st) = None ->
  step_outputs scoring df steps = None.
Proof.
  intros Hin Hc. unfold step_outputs.
  induction steps as [|st' steps IH]; [inversion Hin|].
  cbn [mapM]. apply elem_of_cons in Hin as [<- | Hin].
  - rewrite Hc. reflexivity.
  - destruct (category_column scoring df st'.1); [|reflexivity].
    cbn [mbind option_bind]. fold (step_outputs scoring df steps).
    unfold step_outputs. rewrite (IH Hin). reflexivity.
Qed.

(** X16.  Scoring a table whose present statistic columns are numeric
    returns the input with eleven columns written: [fantasy_points] and the
    ten per-category point columns.  Every other column is that of the
    input; the height is that of the input, except that the table without
    columns becomes a table of one row; and a table whose columns all have
    the table's height stays such a table.  A present statistic column that
    holds strings makes scoring raise. *)
Theorem scoring_keeps_the_input_columns (scoring : gmap string number)
    (df : Frame) :
  (frame_wf df -> numeric_categories df ->
   exists df',
     calculate_fantasy_points scoring df = Some df'
     /\ height df' = scored_height df
     /\ (forall name, name ∉ written_columns ->
                      columns df' !! name = columns df !! name)
     /\ (forall name, name ∈ written_columns ->
                      is_Some (columns df' !! name))
     /\ frame_wf df')
  /\ (forall cat dflt xs, (cat, dflt) ∈ categories ->
        columns df !! cat = Some (StrCol xs) ->
        calculate_fantasy_points scoring df = None).
Proof.
  split; [apply calculate_fantasy_points_total|].
  intros cat dflt xs Hin Hc.
  rewrite calculate_fantasy_points_columns. unfold scored_columns.
  unfold categories in Hin. apply list_elem_of_fmap_1 in Hin as (st & Hst & Hin).
  rewrite (step_outputs_none scoring _ scoring_steps st Hin); [reflexivity|].
  unfold category_column. rewrite <- Hst. cbn [fst snd].
  rewrite with_initial_points_other
    by (apply (categories_fresh (cat, dflt)); unfold categories;
        rewrite Hst; now apply list_elem_of_fmap_2).
  rewrite Hc. reflexivity.
Qed.

Lemma scoring_keeps_the_input_columns_witness :
  (frame_wf plain_frame /\ numeric_categories plain_frame
   /\ exists df',
        calculate_fantasy_points standard_scoring plain_frame = Some df'
        /\ height df' = 2%nat
        /\ frame_wf df'
        /\ columns df' !! "passing_yards"
           = Some (FloatCol [Some (fin 100); Some (fin 250)]))
  /\ (frame_wf empty_frame /\ numeric_categories empty_frame
      /\ exists df',
           calculate_fantasy_points standard_scoring empty_frame = Some df'
           /\ height df' = 1%nat)
  /\ calculate_fantasy_points standard_scoring text_frame = None.
Proof.
  split; [|split].
  - destruct (scoring_keeps_the_input_columns standard_scoring plain_frame)
      as [H _].
    destruct (H plain_frame_wf plain_frame_numeric)
      as (df' & Hcalc & Hh & Hkeep & _ & Hwf).
    split; [exact plain_frame_wf|]. split; [exact plain_frame_numeric|].
    exists df'. split; [exact Hcalc|]. split; [exact Hh|].
    split; [exact Hwf|].
    rewrite Hkeep; [reflexivity|].
    unfold written_columns. intros Hin.
    repeat (apply elem_of_cons in Hin as [Hin | Hin]; [discriminate Hin|]).
    inversion Hin.
  - destruct (scoring_keeps_the_input_columns standard_scoring empty_frame)
      as [H _].
    destruct (H empty_frame_wf empty_frame_numeric)
      as (df' & Hcalc & Hh & _).
    split; [exact empty_frame_wf|]. split; [exact empty_frame_numeric|].
    exists df'. split; [exact Hcalc | exact Hh].
  - destruct (scoring_keeps_the_input_columns standard_scoring text_frame)
      as [_ H].
    apply (H "passing_yards" (PyFloat 0.04) [Some "312"]).
    + unfold categories, scoring_steps. cbn [map fst]. apply elem_of_cons.
      now left.
    + reflexivity.
Defined.

(** X17.  Scoring is idempotent: scoring a frame that has already been
    scored returns it unchanged, an existing [fantasy_points] column and
    the per-category point columns being recomputed from the statistics. *)
Theorem scoring_is_idempotent (scoring : gmap string number) (df df' : Frame) :
  calculate_fantasy_points scoring df = Some df' ->
  calculate_fantasy_points scoring df' = Some df'.
Proof.
  intros Hcalc. rewrite calculate_fantasy_points_columns in Hcalc.
  set (df0 := with_initial_points df) in *.
  unfold scored_columns in Hcalc.
  destruct (step_outputs scoring df0 scoring_steps) as [outs|] eqn:Houts;
    [|discriminate Hcalc].
  cbn [mbind option_bind] in Hcalc.
  destruct (sum_columns (map snd outs)) as [total|] eqn:Htotal;
    [|discriminate Hcalc].
  cbn [mbind option_bind] in Hcalc. injection Hcalc as <-.
  pose proof (step_outputs_fst _ _ _ _ Houts) as Hfst.
  set (cols := <["fantasy_points" := total]> (insert_all outs (columns df0))).
  rewrite calculate_fantasy_points_columns.
  assert (Hinit : with_initial_points {| height := height df0; columns := cols |}
                  = {| height := height df0; columns := cols |}).
  { unfold with_initial_points. cbn [columns]. unfold cols.
    now rewrite lookup_insert_eq. }
  rewrite Hinit. unfold scored_columns.
  assert (Hsame : step_outputs scoring {| height := height df0; columns := cols |}
                    scoring_steps = Some outs).
  { rewrite <- Houts. apply step_outputs_ext; [reflexivity|].
    intros st Hin. cbn [columns]. unfold cols.
    assert (Hcat : fst st ∈ categories)
      by (unfold categories; now apply list_elem_of_fmap_2).
    rewrite lookup_insert_ne
      by (intros Heq; now apply (categories_fresh _ Hcat)).
    apply insert_all_lookup_notin. rewrite Hfst. intros Hout.
    apply list_elem_of_fmap_1 in Hout as (st' & Heq & Hin').
    exact (scoring_steps_separate st' st Hin' Hin (eq_sym Heq)). }
  rewrite Hsame. cbn [mbind option_bind]. rewrite Htotal.
  cbn [mbind option_bind height columns]. do 2 f_equal.
  apply map_eq. intros k. fold cols.
  destruct (decide (k = "fantasy_points")) as [-> | Hne].
  - unfold cols. now rewrite !lookup_insert_eq.
  - rewrite lookup_insert_ne by congruence.
    destruct (decide (k ∈ map fst outs)) as [Hin | Hnin].
    + unfold cols at 2. rewrite lookup_insert_ne by congruence.
      exact (proj1 (insert_all_lookup_in outs _ _ k Hin)).
    + now rewrite insert_all_lookup_notin.
Qed.

Lemma scoring_is_idempotent_witness :
  exists df',
    calculate_fantasy_points standard_scoring plain_frame = Some df'
    /\ calculate_fantasy_points standard_scoring df' = Some df'.
Proof.
  destruct (calculate_fantasy_points_total standard_scoring plain_frame
              plain_frame_wf plain_frame_numeric) as (df' & Hcalc & _).
  exists df'. split; [exact Hcalc|].
  exact (scoring_is_idempotent standard_scoring plain_frame df' Hcalc).
Defined.

(** X18.  A NaN statistic makes the row's [fantasy_points] NaN, provided no
    present category is null in that row (a null would make it null). *)
Theorem nan_value_propagates (scoring : gmap string number) (df : Frame)
    (i : nat) :
  frame_wf df -> (i < height df)%nat ->
  row_without_null df i -> row_has_nan df i ->
  scored_points scoring df i = Some (Some nan).
Proof. apply scored_points_nan. Qed.

Lemma nan_value_propagates_witness :
  frame_wf nan_frame /\ (0 < height nan_frame)%nat
  /\ row_without_null nan_frame 0 /\ row_has_nan nan_frame 0
  /\ scored_points standard_scoring nan_frame 0 = Some (Some nan).
Proof.
  split; [exact nan_frame_wf|]. split; [simpl; lia|].
  split; [exact nan_frame_without_null|]. split; [exact nan_frame_has_nan|].
  apply (nan_value_propagates standard_scoring nan_frame 0).
  - exact nan_frame_wf.
  - simpl. lia.
  - exact nan_frame_without_null.
  - exact nan_frame_has_nan.
Defined.

Lemma average_null_iff_all_null_witness :
  Seasonal.avg_fp_per_game
    (aggregate_group sqrt_floor group_key [game_of "P2" 2024 None]) = None
  /\ valid_pairs [aggregate_group sqrt_floor group_key
                    [game_of "P2" 2024 None]] = [].
Proof.
  destruct (average_null_iff_all_null sqrt_floor group_key
              [game_of "P2" 2024 None]) as [Hiff Hskip].
  assert (H : Seasonal.avg_fp_per_game
                (aggregate_group sqrt_floor group_key
                   [game_of "P2" 2024 None]) = None).
  { apply Hiff. repeat constructor. }
  split; [exact H | exact (Hskip H)].
Defined.

(** ** Position columns *)

(** X19.  Whatever the position string, every column listed for it is one
    of the ten categories the scoring engine scores, and is listed once;
    a position other than QB, RB, WR and TE (after upper-casing) has no
    columns. *)
Theorem position_columns_are_scored_categories (upper : string -> string)
    (position : string) :
  NoDup (get_position_scoring_columns upper position)
  /\ (forall c, c ∈ get_position_scoring_columns upper position ->
                c ∈ map fst categories)
  /\ (upper position ∉ ["QB"; "RB"; "WR"; "TE"] ->
      get_position_scoring_columns upper position = []).
Proof.
  unfold get_position_scoring_columns.
  assert (Hall : map_Forall
                   (fun k cols => NoDup cols
                                  /\ (forall c, c ∈ cols -> c ∈ map fst categories)
                                  /\ k ∈ ["QB"; "RB"; "WR"; "TE"])
                   position_map).
  { unfold position_map. cbn [list_to_map foldr].
    repeat (apply map_Forall_insert_2;
            [ split; [|split];
              [ repeat (apply NoDup_cons; split;
                        [ intros Hin;
                          repeat (apply elem_of_cons in Hin as [Hin | Hin];
                                  [discriminate Hin|]);
                          inversion Hin | ]);
                apply NoDup_nil_2
              | intros c Hin; unfold categories; simpl;
                repeat (apply elem_of_cons in Hin as [-> | Hin];
                        [ repeat (first [ apply list_elem_of_here
                                        | apply list_elem_of_further ]) | ]);
                inversion Hin
              | repeat (first [ apply list_elem_of_here
                              | apply list_elem_of_further ]) ]
            | ]).
    apply map_Forall_empty. }
  destruct (position_map !! upper position) as [cols|] eqn:Hlook; simpl.
  - destruct (Hall _ _ Hlook) as (Hnd & Hsub & Hkey).
    split; [exact Hnd|]. split; [exact Hsub|]. intros Hnot. contradiction.
  - split; [apply NoDup_nil_2|]. split; [|reflexivity].
    intros c Hc. inversion Hc.
Qed.

Lemma position_columns_are_scored_categories_witness :
  (upper_ascii "k" ∉ ["QB"; "RB"; "WR"; "TE"])
  /\ get_position_scoring_columns upper_ascii "k" = []
  /\ get_position_scoring_columns upper_ascii "te"
     = ["receptions"; "receiving_yards"; "receiving_tds"].
Proof.
  assert (H : upper_ascii "k" ∉ ["QB"; "RB"; "WR"; "TE"]).
  { intros Hin.
    repeat (apply elem_of_cons in Hin as [Hin | Hin]; [discriminate Hin|]).
    inversion Hin. }
  split; [exact H|]. split; [|reflexivity].
  exact (proj2 (proj2 (position_columns_are_scored_categories
                         upper_ascii "k")) H).
Defined.

(** ** Seasons to fetch *)

Lemma filter_all {A : Type} (P : A -> Prop) `{forall x, Decision (P x)}
    (l : list A) :
  Forall P l -> filter P l = l.
Proof.
  induction 1 as [|x l Hx _ IH]; [reflexivity|].
  rewrite filter_cons, decide_True by exact Hx. now rewrite IH.
Qed.

Lemma remove_first_filter (x : Z) (l : list Z) :
  NoDup l -> remove_first x l = filter (fun y => y <> x) l.
Proof.
  induction 1 as [|y l Hy Hnd IH]; [reflexivity|].
  cbn [remove_first]. rewrite filter_cons.
  destruct (decide (x = y)) as [->|Hne].
  - rewrite decide_False by (intros H; now apply H).
    symmetry. apply filter_all, Forall_forall. intros z Hz ->. contradiction.
  - rewrite decide_True by congruence. now rewrite IH.
Qed.

(** X21.  [get_season_list] returns the years from [start_year] to
    [end_year] in ascending order, without the current year when
    [include_current] is false; it is empty when [end_year < start_year]
    and never lists a year twice. *)
Theorem get_season_list_spec (current_year start_year end_year : Z)
    (include_current : bool) :
  get_season_list current_year start_year end_year include_current
  = filter (fun y => include_current = true \/ y <> current_year)
           (seqZ start_year (end_year + 1 - start_year))
  /\ (forall y,
        y ∈ get_season_list current_year start_year end_year include_current
        <-> (start_year <= y <= end_year)%Z
            /\ (include_current = true \/ y <> current_year))
  /\ NoDup (get_season_list current_year start_year end_year include_current)
  /\ ((end_year < start_year)%Z ->
      get_season_list current_year start_year end_year include_current = []).
Proof.
  assert (Heq : get_season_list current_year start_year end_year
                  include_current
                = filter (fun y => include_current = true \/ y <> current_year)
                         (seqZ start_year (end_year + 1 - start_year))).
  { unfold get_season_list. cbv zeta.
    set (seasons := seqZ start_year (end_year + 1 - start_year)).
    destruct include_current; simpl.
    - symmetry. apply filter_all, Forall_forall. intros y _. now left.
    - destruct (bool_decide_reflect (current_year ∈ seasons)) as [Hin|Hnin].
      + rewrite remove_first_filter by apply NoDup_seqZ.
        apply list_filter_iff. intros y. split; [now right|].
        intros [H|H]; [discriminate H | exact H].
      + symmetry. apply filter_all, Forall_forall.
        intros y Hy. right. intros ->. contradiction. }
  split; [exact Heq|]. rewrite Heq. split; [|split].
  - intros y. rewrite list_elem_of_filter, elem_of_seqZ. split.
    + intros [Hc Hr]. split; [lia | exact Hc].
    + intros [Hr Hc]. split; [exact Hc | lia].
  - apply NoDup_filter, NoDup_seqZ.
  - intros Hlt. unfold seqZ. rewrite Z2Nat.nonpos by lia. reflexivity.
Qed.

Lemma get_season_list_spec_witness :
  get_season_list 2024 2022 2025 false = [2022; 2023; 2025]%Z
  /\ ((2021 < 2022)%Z -> get_season_list 2024 2022 2021 true = []).
Proof.
  split; [reflexivity|].
  exact (proj2 (proj2 (proj2 (get_season_list_spec 2024 2022 2021 true)))).
Defined.

(** ** Selection of the results *)

Lemma StronglySorted_filter {A : Type} (R : A -> A -> Prop) (P : A -> Prop)
    `{forall x, Decision (P x)} (l : list A) :
  StronglySorted R l -> StronglySorted R (filter P l).
Proof.
  induction 1 as [|x l Hl IH Hx]; [constructor|].
  rewrite filter_cons. destruct (decide (P x)); [|exact IH].
  constructor; [exact IH|].
  apply Forall_forall. intros y Hy.
  apply list_elem_of_filter in Hy as [_ Hy].
  rewrite Forall_forall in Hx. now apply Hx.
Qed.

(** X22.  The result selection of [predict_fantasy_players] never invents
    rows: the filtered predictions are a sub-list of the predictions, all
    at the requested position (upper-cased) when one other than "ALL" is
    given, and the top players are a leading part of the filtered
    predictions.  A count of 0, like no count, selects all of them.  Both
    lists stay sorted when the predictions are. *)
Theorem select_players_spec (upper : string -> string)
    (top_n_players : option Z) (position : option string) (top_n : option Z)
    (predictions_df : list Prediction.row) :
  let filtered := fst (select_players upper top_n_players position top_n
                                      predictions_df) in
  let top := snd (select_players upper top_n_players position top_n
                                 predictions_df) in
  filtered `sublist_of` predictions_df
  /\ (exists rest, filtered = (top ++ rest)%list)
  /\ (forall pos, position = Some pos -> pos <> "" -> upper pos <> "ALL" ->
                  forall p, p ∈ filtered -> Prediction.position p = upper pos)
  /\ (top_n = None \/ top_n = Some 0%Z -> top = filtered)
  /\ (StronglySorted fp_descending predictions_df ->
      StronglySorted fp_descending filtered
      /\ StronglySorted fp_descending top).
Proof.
  cbv zeta. unfold select_players. cbn [fst snd].
  set (filtered := match position with
                   | Some pos =>
                       if negb (String.eqb pos "")
                          && negb (String.eqb (upper pos) "ALL")
                       then filter (fun p => Prediction.position p = upper pos)
                                   predictions_df
                       else predictions_df
                   | None => predictions_df
                   end).
  assert (Hsub : filtered `sublist_of` predictions_df).
  { unfold filtered. destruct position as [pos|]; [|reflexivity].
    destruct (negb _ && negb _); [apply sublist_filter | reflexivity]. }
  assert (Hsorted : StronglySorted fp_descending predictions_df ->
                    StronglySorted fp_descending filtered).
  { intros Hs. unfold filtered. destruct position as [pos|]; [|exact Hs].
    destruct (negb _ && negb _); [now apply StronglySorted_filter | exact Hs]. }
  assert (Htop : exists rest,
            filtered
            = (match top_n with
               | Some n => if (n =? 0)%Z then filtered
                           else get_top_players top_n_players filtered (Some n)
               | None => filtered
               end ++ rest)%list).
  { destruct top_n as [n|]; [|exists []; now rewrite app_nil_r].
    destruct (n =? 0)%Z; [exists []; now rewrite app_nil_r|].
    destruct (get_top_players_char top_n_players filtered (Some n))
      as (rest & Hrest & _).
    now exists rest. }
  split; [exact Hsub|]. split; [exact Htop|]. split; [|split].
  - intros pos -> Hne Hall p Hp. unfold filtered in Hp.
    apply String.eqb_neq in Hne, Hall. rewrite Hne, Hall in Hp. simpl in Hp.
    now apply list_elem_of_filter in Hp as [Hp _].
  - intros [-> | ->]; reflexivity.
  - intros Hs. split; [now apply Hsorted|].
    destruct Htop as (rest & Hrest).
    pose proof (Hsorted Hs) as Hf. rewrite Hrest in Hf.
    now apply StronglySorted_app_1_l in Hf.
Qed.

Lemma select_players_spec_witness :
  StronglySorted fp_descending ranked_predictions
  /\ map Prediction.player_id
       (fst (select_players upper_ascii None (Some "rb") (Some 0%Z)
                            ranked_predictions)) = ["P1"]
  /\ snd (select_players upper_ascii None (Some "rb") (Some 0%Z)
                         ranked_predictions)
     = fst (select_players upper_ascii None (Some "rb") (Some 0%Z)
                           ranked_predictions)
  /\ StronglySorted fp_descending
       (snd (select_players upper_ascii None (Some "rb") (Some 0%Z)
                            ranked_predictions)).
Proof.
  pose proof ranked_predictions_sorted as Hs.
  destruct (select_players_spec upper_ascii None (Some "rb") (Some 0%Z)
              ranked_predictions) as (_ & _ & _ & Hall & Hsorted).
  split; [exact Hs|]. split; [reflexivity|]. split.
  - apply Hall. now right.
  - exact (proj2 (Hsorted Hs)).
Defined.

Lemma seasonal_rows_partition_games_witness :
  map Seasonal.games_played (get_player_seasonal_stats sqrt_floor games_df)
  = [2; 1; 1]%nat
  /\ sum_list (map Seasonal.games_played
                 (get_player_seasonal_stats sqrt_floor games_df))
     = length games_df
  /\ NoDup (map seasonal_key (get_player_seasonal_stats sqrt_floor games_df)).
Proof.
  destruct (seasonal_rows_partition_games sqrt_floor games_df)
    as (Hnd & _ & _ & Hsum).
  split; [reflexivity|]. split; [exact Hsum | exact Hnd].
Defined.
